(** * Evaluation metrics pipeline of [app6.py]

    A shallow embedding of the data transformations performed by the
    dashboard script [src/app6.py] on the uploaded table, and the
    properties of those transformations.

    Numbers.  The script works on pandas [float64] columns.  A float is
    modelled as an exact rational or one of the three IEEE special values
    (+inf, -inf, NaN); arithmetic on the special values follows IEEE 754
    (x/0, inf-inf, 0*inf, comparisons with NaN), arithmetic on finite
    values is exact.  Binary rounding and the sign of zero are not
    modelled.

    Tables.  A [DataFrame] is a header (the column labels) and a list of
    rows, each row a finite map from column label to cell.  Element-wise
    column expressions of the script are maps over the rows, boolean-mask
    selection is a filter over the rows.

    Presentation calls ([st.*], [px.*]) and the column projections made in
    their arguments are outside the model. *)

From Stdlib Require Import QArith Qcanon ZArith Qround Ascii String.
From stdpp Require Import gmap strings list fin_maps sorting.

Local Open Scope Z_scope.

(** ** Floats *)

Module Float.

Inductive float : Type :=
| Fin (q : Qc)
| PInf
| NInf
| NaN.

Definition of_Q (q : Q) : float := Fin (Q2Qc q).
Definition of_Z (z : Z) : float := of_Q (inject_Z z).
Definition of_nat (n : nat) : float := of_Z (Z.of_nat n).
Definition zero : float := of_Z 0.

(** Sign of a rational, read off its numerator. *)
Definition sgn (q : Qc) : comparison := (Qnum (this q) ?= 0)%Z.

Definition Qc_leb (a b : Qc) : bool := Qle_bool (this a) (this b).
Definition Qc_eqb (a b : Qc) : bool := Qeq_bool (this a) (this b).

Definition is_nan (x : float) : bool :=
  match x with NaN => true | _ => false end.

Definition is_inf (x : float) : bool :=
  match x with PInf | NInf => true | _ => false end.

Definition is_finite (x : float) : bool :=
  match x with Fin _ => true | _ => false end.

Definition neg (x : float) : float :=
  match x with
  | Fin q => Fin (- q)%Qc
  | PInf => NInf
  | NInf => PInf
  | NaN => NaN
  end.

Definition add (x y : float) : float :=
  match x, y with
  | NaN, _ | _, NaN => NaN
  | PInf, NInf | NInf, PInf => NaN
  | PInf, _ | _, PInf => PInf
  | NInf, _ | _, NInf => NInf
  | Fin a, Fin b => Fin (a + b)%Qc
  end.

Definition sub (x y : float) : float := add x (neg y).

(** Infinity of the sign of [c] ([Eq]: no sign, the product 0*inf). *)
Definition inf_of (c : comparison) : float :=
  match c with Gt => PInf | Lt => NInf | Eq => NaN end.

Definition sgn_f (x : float) : option comparison :=
  match x with
  | Fin q => Some (sgn q)
  | PInf => Some Gt
  | NInf => Some Lt
  | NaN => None
  end.

Definition sgn_mul (a b : comparison) : comparison :=
  match a, b with
  | Eq, _ | _, Eq => Eq
  | Gt, c | c, Gt => c
  | Lt, Lt => Gt
  end.

Definition mul (x y : float) : float :=
  match x, y with
  | NaN, _ | _, NaN => NaN
  | Fin a, Fin b => Fin (a * b)%Qc
  | _, _ =>
      match sgn_f x, sgn_f y with
      | Some a, Some b => inf_of (sgn_mul a b)
      | _, _ => NaN
      end
  end.

(** Division: a finite non-zero numerator over zero is an infinity of the
    numerator's sign, 0/0 and inf/inf are NaN. *)
Definition div (x y : float) : float :=
  match x, y with
  | NaN, _ | _, NaN => NaN
  | Fin a, Fin b =>
      match sgn b with
      | Eq => inf_of (sgn a)
      | _ => Fin (a / b)%Qc
      end
  | Fin _, _ => zero
  | _, Fin b =>
      match sgn b, x with
      | Lt, _ => neg x
      | _, _ => x
      end
  | _, _ => NaN
  end.

Definition abs (x : float) : float :=
  match x with
  | Fin q => match sgn q with Lt => Fin (- q)%Qc | _ => Fin q end
  | PInf | NInf => PInf
  | NaN => NaN
  end.

(** IEEE comparisons: every comparison with NaN is false. *)
Definition le (x y : float) : bool :=
  match x, y with
  | NaN, _ | _, NaN => false
  | NInf, _ | _, PInf => true
  | Fin a, Fin b => Qc_leb a b
  | _, _ => false
  end.

Definition lt (x y : float) : bool := le x y && negb (le y x).
Definition ge (x y : float) : bool := le y x.
Definition gt (x y : float) : bool := lt y x.

(** Identity of two floats as values (not the IEEE [==], which is false
    on NaN). *)
Definition eqb (x y : float) : bool :=
  match x, y with
  | Fin a, Fin b => Qc_eqb a b
  | PInf, PInf | NInf, NInf | NaN, NaN => true
  | _, _ => false
  end.

Definition sum (xs : list float) : float := foldr add zero xs.

(** [floor] of a non-negative rational as a natural number. *)
Definition floor_nat (q : Qc) : nat := Z.to_nat (Qfloor (this q)).

End Float.

Export Float.

Declare Scope float_scope.
Delimit Scope float_scope with F.
Bind Scope float_scope with float.
Infix "+" := add : float_scope.
Infix "-" := sub : float_scope.
Infix "*" := mul : float_scope.
Infix "/" := div : float_scope.
Infix "<=?" := le : float_scope.
Infix "<?" := lt : float_scope.
Infix ">=?" := ge : float_scope.
Infix ">?" := gt : float_scope.

(** Decimal literals: [n # d] as a float. *)
Notation "n '#f' d" := (of_Q (n # d)) (at level 5, no associativity).

Local Open Scope nat_scope.

(** ** Cells, rows and tables *)

(** A spreadsheet cell as the loader hands it over: a number, a text, or
    an empty cell (pandas: NaN / None). *)
Inductive cell : Type :=
| Num (x : float)
| Str (s : string)
| Null.

Abbreviation row := (gmap string cell).

Record DataFrame : Type := mkDF {
  columns : list string;
  rows : list row
}.

(** Column access raises [KeyError] on an absent label. *)
Inductive result (A : Type) : Type :=
| Ok (a : A)
| KeyError (col : string).
Arguments Ok {A} a.
Arguments KeyError {A} col.

#[global] Instance result_bind : MBind result := λ A B f m,
  match m with
  | Ok a => f a
  | KeyError c => KeyError c
  end.

Definition is_ok {A} (m : result A) : bool :=
  match m with Ok _ => true | KeyError _ => false end.

(** [col in df.columns] *)
Definition has_col (c : string) (df : DataFrame) : bool :=
  bool_decide (c ∈ columns df).

(** The cell of a row under a label; the float it holds. *)
Definition cellof (c : string) (r : row) : cell := default Null (r !! c).

Definition as_float (c : cell) : float :=
  match c with Num x => x | _ => NaN end.

Definition numof (c : string) (r : row) : float := as_float (cellof c r).

(** [df[c]]: the column as a list, or [KeyError]. *)
Definition getcol (c : string) (df : DataFrame) : result (list cell) :=
  if has_col c df then Ok (cellof c <$> rows df) else KeyError c.

Definition getnum (c : string) (df : DataFrame) : result (list float) :=
  if has_col c df then Ok (numof c <$> rows df) else KeyError c.

(** The column look-ups of one statement, in evaluation order. *)
Fixpoint require (cs : list string) (df : DataFrame) : result unit :=
  match cs with
  | [] => Ok tt
  | c :: cs' => if has_col c df then require cs' df else KeyError c
  end.

(** [df[c] = f(row)], element-wise: the label is appended to the header
    when new. *)
Definition assign (c : string) (f : row → cell) (df : DataFrame) : DataFrame :=
  {| columns := if has_col c df then columns df else columns df ++ [c];
     rows := (λ r, <[c := f r]> r) <$> rows df |}.

(** [df[mask]] with an element-wise mask. *)
Definition select (p : row → bool) (rs : list row) : list row :=
  List.filter p rs.

(** ** Library operations on columns *)

(** Stable insertion sort under a boolean order. *)
Fixpoint insert_by {A} (leb : A → A → bool) (x : A) (l : list A) : list A :=
  match l with
  | [] => [x]
  | y :: l' => if leb x y then x :: l else y :: insert_by leb x l'
  end.

Definition sort_by {A} (leb : A → A → bool) (l : list A) : list A :=
  foldr (insert_by leb) [] l.

(** [sort_values(by=key, ascending=...)]: NaN keys go last in either
    direction ([na_position='last']). *)
Definition key_leb {A} (key : A → float) (ascending : bool) (a b : A) : bool :=
  if ascending then (key a <=? key b)%F else (key b <=? key a)%F.

Definition sort_values {A} (key : A → float) (ascending : bool) (l : list A)
  : list A :=
  sort_by (key_leb key ascending) (List.filter (λ a, negb (is_nan (key a))) l)
  ++ List.filter (λ a, is_nan (key a)) l.

Definition dropna (xs : list float) : list float :=
  List.filter (λ x, negb (is_nan x)) xs.

(** [Series.fillna(v)] *)
Definition fillna (v : float) (x : float) : float :=
  if is_nan x then v else x.

(** [Series.replace([np.inf, -np.inf], v)] *)
Definition replace_inf (v : float) (x : float) : float :=
  if is_inf x then v else x.

(** [Series.mean()]: NaN entries are skipped; the mean of nothing is NaN. *)
Definition mean (xs : list float) : float :=
  let ys := dropna xs in
  (Float.sum ys / of_nat (length ys))%F.

(** [Series.max()], [Series.min()] over the non-NaN entries. *)
Definition fmax (x y : float) : float := if (x <=? y)%F then y else x.
Definition fmin (x y : float) : float := if (x <=? y)%F then x else y.

Definition series_max (xs : list float) : float :=
  match dropna xs with
  | [] => NaN
  | y :: ys => foldl fmax y ys
  end.

Definition series_min (xs : list float) : float :=
  match dropna xs with
  | [] => NaN
  | y :: ys => foldl fmin y ys
  end.

(** [Series.quantile(q)], default interpolation ['linear']: with the
    non-NaN values sorted ascending as v[0..n-1], the virtual index is
    (n-1)*q, and the result interpolates linearly between the two
    neighbouring ranks. *)
Definition lerp (a b t : float) : float := (a + (b - a) * t)%F.

Definition quantile (q : Qc) (xs : list float) : float :=
  let v := sort_by Float.le (dropna xs) in
  let n := length v in
  match n with
  | 0 => NaN
  | S m =>
      let pos := (Q2Qc (inject_Z (Z.of_nat m)) * q)%Qc in
      let lo := floor_nat pos in
      let hi := Nat.min (S lo) m in
      let g := (pos - Q2Qc (inject_Z (Z.of_nat lo)))%Qc in
      lerp (nth lo v NaN) (nth hi v NaN) (Fin g)
  end.

(** Sample variance and standard deviation, [ddof = 1]: the squared
    deviations from the mean are divided by n-1; fewer than two values
    give NaN.  The square root of a non-negative rational is a parameter
    ([sqrt_q]). *)
Definition var (xs : list float) : float :=
  let ys := dropna xs in
  let n := length ys in
  if n <=? 1 then NaN
  else
    let m := (Float.sum ys / of_nat n)%F in
    (Float.sum ((λ y, (y - m) * (y - m))%F <$> ys) / of_nat (n - 1))%F.

Definition fsqrt (sqrt_q : Qc → Qc) (x : float) : float :=
  match x with
  | Fin q => match sgn q with Lt => NaN | _ => Fin (sqrt_q q) end
  | PInf => PInf
  | NInf | NaN => NaN
  end.

Definition std (sqrt_q : Qc → Qc) (xs : list float) : float :=
  fsqrt sqrt_q (var xs).

(** [pd.to_numeric(errors='coerce')] on one cell: a number is kept, a text
    is parsed ([parse], the library's numeric parser, is a parameter) and
    becomes NaN when it does not parse, an empty cell is NaN. *)
Definition to_numeric (parse : string → option float) (c : cell) : float :=
  match c with
  | Num x => x
  | Str s => default NaN (parse s)
  | Null => NaN
  end.

(** [pd.Categorical(values, categories=cats)]: a value outside the
    categories becomes NaN. *)
Definition categorical (cats : list string) (c : cell) : cell :=
  match c with
  | Str s => if bool_decide (s ∈ cats) then Str s else Null
  | _ => Null
  end.

Definition cell_is (k : string) (c : cell) : bool :=
  match c with Str s => bool_decide (s = k) | _ => false end.

(** [groupby(key, observed=True)] on a categorical column: one group per
    category that occurs, in category order; rows without a category are
    in no group. *)
Definition groupby_cat (cats : list string) (key : string) (rs : list row)
  : list (string * list row) :=
  flat_map (λ k, match select (λ r, cell_is k (cellof key r)) rs with
                 | [] => []
                 | g => [(k, g)]
                 end) cats.

(** [value_counts().sort_index()] on a categorical column: every category
    with its count, in category order. *)
Definition value_counts_cat (cats : list string) (key : string) (rs : list row)
  : list (string * nat) :=
  (λ k, (k, length (select (λ r, cell_is k (cellof key r)) rs))) <$> cats.

#[global] Instance float_eq_dec : EqDecision float.
Proof. solve_decision. Defined.

#[global] Instance cell_eq_dec : EqDecision cell.
Proof. solve_decision. Defined.

(** Null keys (an empty cell, a NaN) are dropped by [groupby]. *)
Definition isnull (c : cell) : bool :=
  match c with
  | Null | Num NaN => true
  | _ => false
  end.

(** Order of group keys: numbers by value, texts by code point, numbers
    before texts. *)
Definition cell_leb (a b : cell) : bool :=
  match a, b with
  | Num x, Num y => (x <=? y)%F
  | Num _, _ => true
  | Str s, Str t => String.leb s t
  | Str _, Null => true
  | Null, Null => true
  | _, _ => false
  end.

Definition group_keys (key : string) (rs : list row) : list cell :=
  sort_by cell_leb
    (remove_dups (List.filter (λ c, negb (isnull c)) (cellof key <$> rs))).

(** [groupby(key)] on a plain column: one group per distinct non-null
    key, keys sorted. *)
Definition groupby (key : string) (rs : list row) : list (cell * list row) :=
  (λ k, (k, select (λ r, bool_decide (cellof key r = k)) rs))
    <$> group_keys key rs.

Definition agg {K V} (f : list row → V) (gs : list (K * list row))
  : list (K * V) :=
  (λ kg, (kg.1, f kg.2)) <$> gs.

Definition lookup_key {K V} `{EqDecision K} (k : K) (s : list (K * V))
  : option V :=
  snd <$> List.find (λ kv, bool_decide (kv.1 = k)) s.

(** [a / b] on two integer series: the result is indexed by the union of
    both indexes, and is NaN at a label that one side lacks. *)
Definition align_div (a b : list (cell * nat)) : list (cell * float) :=
  (λ k, (k, match lookup_key k a, lookup_key k b with
            | Some x, Some y => (of_nat x / of_nat y)%F
            | _, _ => NaN
            end))
    <$> sort_by cell_leb (remove_dups (a.*1 ++ b.*1)).

(** [pd.cut(x, bins, labels)], [right=True]: the label of the interval
    (lo, hi] that holds x; no label outside the bins. *)
Fixpoint cut_index (x : float) (edges : list float) (i : nat) : option nat :=
  match edges with
  | lo :: (hi :: _) as rest =>
      if (lo <? x)%F && (x <=? hi)%F then Some i else cut_index x rest (S i)
  | _ => None
  end.

Definition cut (edges : list float) (lbls : list string) (x : float) : cell :=
  match cut_index x edges 0 with
  | Some i => match lbls !! i with Some l => Str l | None => Null end
  | None => Null
  end.

(** ** The script *)

(** Column labels of the uploaded sheet. *)
Definition c_perf : string := "성과점수".      (* performance score *)
Definition c_comp : string := "역량점수".      (* competency score *)
Definition c_total : string := "총점".         (* total score *)
Definition c_tenure : string := "근무기간".    (* tenure in years *)
Definition c_prev : string := "전년도총점".    (* prior-year total score *)
Definition c_rank : string := "직급".          (* rank *)
Definition c_grade : string := "종합등급".     (* overall grade *)
Definition c_dept : string := "부서".          (* department *)

(** Derived columns. *)
Definition c_change : string := "변화량".
Definition c_delta : string := "점수변화량".
Definition c_absdelta : string := "변화량_절대값".
Definition c_growth : string := "성장률(%)".
Definition c_diff : string := "점수차이".
Definition c_bucket : string := "근속구간".

Definition target_cols : list string :=
  [c_perf; c_comp; c_total; c_tenure; c_prev].

Definition rank_order : list string := ["부장"; "차장"; "과장"; "대리"; "사원"].
Definition grade_order : list string := ["S"; "A"; "B"; "C"; "D"].

Definition bins : list float := of_Z <$> [0; 2; 5; 10; 20; 100]%Z.
Definition labels : list string :=
  ["1-2년(신입)"; "3-5년(주니어)"; "6-10년(시니어)"; "11-20년(베테랑)";
   "20년 이상"].

(** Python's [max(a, b)] and [min(a, b)]. *)
Definition py_max (a b : float) : float := if (b >? a)%F then b else a.
Definition py_min (a b : float) : float := if (b <? a)%F then b else a.

Record Summary : Type := mkSummary {
  headcount : nat;
  mean_total : float;
  growth_avg : option float;
  mean_tenure : float
}.

Record Growth : Type := mkGrowth {
  top_improvers : list row;
  dept_growth : list (cell * float);
  growth_range : float * float
}.

Record Risk : Type := mkRisk {
  potential_risk : list row;
  warning_drop : option (list row);
  dept_std : list (cell * float)
}.

Record Engine : Type := mkEngine {
  talent_density : list (cell * float);
  tenure_perf : list (string * float);
  rank_balance : list (string * string * float)
}.

Record Output : Type := mkOutput {
  out_df : DataFrame;
  summary : Summary;
  rank_avg : option (list (string * float));
  ref_lines : float * float;
  change_max : option float;
  grade_counts : option (list (string * nat));
  star_threshold : float;
  stars : list row;
  growth : option Growth;
  risk : Risk;
  engine : Engine
}.

Section Model.

Context (parse : string → option float) (sqrt_q : Qc → Qc).

(** [df[c] = f(df[c])] *)
Definition map_col (c : string) (f : cell → cell) (df : DataFrame) : DataFrame :=
  assign c (λ r, f (cellof c r)) df.

(** Lines 23-26: every target column that is present is parsed, cast to
    float, and its NaN entries are replaced by 0.0. *)
Definition coerce (c : cell) : cell :=
  Num (fillna zero (to_numeric parse c)).

Definition normalize (df : DataFrame) : DataFrame :=
  foldl (λ d col, if has_col col d then map_col col coerce d else d)
        df target_cols.

(** Lines 29-35. *)
Definition dashboard (df : DataFrame) : result Summary :=
  total ← getnum c_total df;
  g ← (if has_col c_prev df
       then _ ← require [c_total; c_prev] df;
            Ok (Some (mean ((λ r, numof c_total r - numof c_prev r)%F
                              <$> rows df)))
       else Ok None);
  tenure ← getnum c_tenure df;
  Ok {| headcount := length (rows df);
        mean_total := mean total;
        growth_avg := g;
        mean_tenure := mean tenure |}.

(** Lines 44-47. *)
Definition set_categories (df : DataFrame) : DataFrame :=
  let df1 := if has_col c_rank df
             then map_col c_rank (categorical rank_order) df else df in
  if has_col c_grade df1
  then map_col c_grade (categorical grade_order) df1 else df1.

(** Line 61. *)
Definition tab1 (df : DataFrame) : result (option (list (string * float))) :=
  if has_col c_rank df
  then _ ← require [c_rank; c_total] df;
       Ok (Some (agg (λ g, mean (numof c_total <$> g))
                     (groupby_cat rank_order c_rank (rows df))))
  else Ok None.

(** Lines 103-104. *)
Definition tab2 (df : DataFrame) : result (float * float) :=
  comp ← getnum c_comp df;
  perf ← getnum c_perf df;
  Ok (mean comp, mean perf).

(** Lines 110-126. *)
Definition tab3 (df : DataFrame) : result (DataFrame * option float) :=
  if has_col c_prev df
  then _ ← require [c_total; c_prev] df;
       let df' := assign c_change
                    (λ r, Num (numof c_total r - numof c_prev r)%F) df in
       total ← getnum c_total df';
       prev ← getnum c_prev df';
       Ok (df', Some (py_max (series_max total) (series_max prev)))
  else Ok (df, None).

(** Lines 136-137. *)
Definition tab4 (df : DataFrame) : result (option (list (string * nat))) :=
  if has_col c_grade df
  then Ok (Some (value_counts_cat grade_order c_grade (rows df)))
  else Ok None.

(** Lines 143-146. *)
Definition tab5 (df : DataFrame) : result (float * list row) :=
  total ← getnum c_total df;
  let star_threshold := quantile (Q2Qc (9 # 10)) total in
  let stars := select (λ r, (numof c_total r >=? star_threshold)%F) (rows df) in
  Ok (star_threshold, sort_values (numof c_total) false stars).

(** Line 157, one entry. *)
Definition growth_pct (delta prev : float) : float :=
  replace_inf zero (delta / prev * of_Z 100)%F.

(** Lines 152-185. *)
Definition tab6 (df : DataFrame) : result (DataFrame * option Growth) :=
  if has_col c_prev df
  then _ ← require [c_total; c_prev] df;
       let df1 := assign c_delta
                    (λ r, Num (numof c_total r - numof c_prev r)%F) df in
       let df2 := assign c_absdelta (λ r, Num (abs (numof c_delta r))) df1 in
       let df3 := assign c_growth
                    (λ r, Num (growth_pct (numof c_delta r) (numof c_prev r)))
                    df2 in
       let top := take 5 (sort_values (numof c_delta) false (rows df3)) in
       _ ← require [c_dept; c_delta] df3;
       let dg := sort_values snd true
                   (agg (λ g, mean (numof c_delta <$> g))
                        (groupby c_dept (rows df3))) in
       total ← getnum c_total df3;
       prev ← getnum c_prev df3;
       Ok (df3, Some {| top_improvers := top;
                        dept_growth := dg;
                        growth_range :=
                          (py_min (series_min total) (series_min prev),
                           py_max (series_max total) (series_max prev)) |})
  else Ok (df, None).

(** Lines 207-234. *)
Definition tab7 (df : DataFrame) : result (DataFrame * Risk) :=
  comp ← getnum c_comp df;
  perf ← getnum c_perf df;
  let pr := select (λ r, (numof c_comp r >? mean comp)%F
                         && (numof c_perf r <? mean perf)%F) (rows df) in
  '(df', wd) ←
    (if has_col c_prev df
     then _ ← require [c_total; c_prev] df;
          let df1 := assign c_diff
                       (λ r, Num (numof c_total r - numof c_prev r)%F) df in
          Ok (df1,
              Some (sort_values (numof c_diff) true
                      (select (λ r, (numof c_diff r <=? of_Z (-10))%F)
                              (rows df1))))
     else Ok (df, None));
  _ ← require [c_dept; c_total] df';
  let ds := sort_values snd false
              (agg (λ g, std sqrt_q (numof c_total <$> g))
                   (groupby c_dept (rows df'))) in
  Ok (df', {| potential_risk := pr; warning_drop := wd; dept_std := ds |}).

(** Lines 245-276. *)
Definition is_star_grade (c : cell) : bool := cell_is "S" c || cell_is "A" c.

Definition melt (rb : list (string * (float * float)))
  : list (string * string * float) :=
  ((λ kv, (kv.1, c_comp, kv.2.1)) <$> rb)
  ++ ((λ kv, (kv.1, c_perf, kv.2.2)) <$> rb).

Definition tab8 (df : DataFrame) : result (DataFrame * Engine) :=
  _ ← require [c_dept] df;
  let dept_total := agg length (groupby c_dept (rows df)) in
  _ ← require [c_grade; c_dept] df;
  let dept_stars :=
    agg length
        (groupby c_dept (select (λ r, is_star_grade (cellof c_grade r))
                                (rows df))) in
  let td := sort_values snd false
              ((λ kv, (kv.1, fillna zero (kv.2 * of_Z 100)%F))
                 <$> align_div dept_stars dept_total) in
  _ ← require [c_tenure] df;
  let df1 := assign c_bucket (λ r, cut bins labels (numof c_tenure r)) df in
  _ ← require [c_bucket; c_total] df1;
  let tp := agg (λ g, mean (numof c_total <$> g))
                (groupby_cat labels c_bucket (rows df1)) in
  _ ← require [c_rank; c_comp; c_perf] df1;
  let rb := agg (λ g, (mean (numof c_comp <$> g), mean (numof c_perf <$> g)))
                (groupby_cat rank_order c_rank (rows df1)) in
  Ok (df1, {| talent_density := td; tenure_perf := tp;
              rank_balance := melt rb |}).

(** The whole run on one uploaded table. *)
Definition pipeline (df0 : DataFrame) : result Output :=
  let df := normalize df0 in
  s ← dashboard df;
  let df := set_categories df in
  ra ← tab1 df;
  rl ← tab2 df;
  '(df, cm) ← tab3 df;
  gc ← tab4 df;
  '(thr, st) ← tab5 df;
  '(df, gr) ← tab6 df;
  '(df, rk) ← tab7 df;
  '(df, en) ← tab8 df;
  Ok {| out_df := df; summary := s; rank_avg := ra; ref_lines := rl;
        change_max := cm; grade_counts := gc; star_threshold := thr;
        stars := st; growth := gr; risk := rk; engine := en |}.

End Model.

(** ** Instances of the parameters, and sample tables *)

(** A numeric parser for the examples: signed decimal literals with an
    optional fraction, and the tokens [inf] and [-inf]. *)
Definition digit (a : ascii) : option Z :=
  let n := nat_of_ascii a in
  if (48 <=? n) && (n <=? 57) then Some (Z.of_nat (n - 48)) else None.

Fixpoint scan (s : string) (num : Z) (den : positive) (frac seen : bool)
  : option Q :=
  match s with
  | EmptyString => if seen then Some (num # den) else None
  | String a s' =>
      if Ascii.eqb a "." then
        if frac then None else scan s' num den true seen
      else
        match digit a with
        | Some d =>
            scan s' (10 * num + d)%Z (if frac then (10 * den)%positive else den)
                 frac true
        | None => None
        end
  end.

Definition parse_decimal (s : string) : option float :=
  if bool_decide (s = "inf") then Some PInf
  else if bool_decide (s = "-inf") then Some NInf
  else match s with
       | String "-" s' => (λ q, of_Q (- q)) <$> scan s' 0 1 false false
       | _ => of_Q <$> scan s 0 1 false false
       end.

(** A square root for the examples: twelve decimal digits, rounded down. *)
Definition sqrt_12 (q : Qc) : Qc :=
  Q2Qc (Z.sqrt (Qfloor (this q * inject_Z (10 ^ 24))) # 10 ^ 12).

Definition mkrow (l : list (string * cell)) : row := list_to_map l.

Definition num (n : Z) (d : positive) : cell := Num (n #f d).

(** The relation of a boolean order, for [Sorted]. *)
Definition leb_rel {A} (leb : A → A → bool) : relation A :=
  λ a b, leb a b = true.

(** Equality test on lists of floats. *)
Fixpoint floats_eqb (xs ys : list float) : bool :=
  match xs, ys with
  | [], [] => true
  | x :: xs', y :: ys' => Float.eqb x y && floats_eqb xs' ys'
  | _, _ => false
  end.


(** A table with the year-over-year changes -10, -9.99, -25 and +5. *)
Definition drops : DataFrame :=
  mkDF [c_dept; c_rank; c_total; c_prev; c_comp; c_perf]
       [mkrow [(c_dept, Str "영업"); (c_rank, Str "대리"); (c_total, num 70 1);
               (c_prev, num 80 1); (c_comp, num 75 1); (c_perf, num 65 1)];
        mkrow [(c_dept, Str "영업"); (c_rank, Str "사원"); (c_total, num 7001 100);
               (c_prev, num 80 1); (c_comp, num 85 1); (c_perf, num 60 1)];
        mkrow [(c_dept, Str "개발"); (c_rank, Str "과장"); (c_total, num 60 1);
               (c_prev, num 85 1); (c_comp, num 70 1); (c_perf, num 90 1)];
        mkrow [(c_dept, Str "개발"); (c_rank, Str "부장"); (c_total, num 90 1);
               (c_prev, num 85 1); (c_comp, num 90 1); (c_perf, num 88 1)]].

(** One row after lines 23-26, for a header given by [present]. *)
Definition norm_row (parse : string → option float) (present : string → bool)
    (cs : list string) (r : row) : row :=
  foldl (λ r c, if present c then <[c := coerce parse (cellof c r)]> r else r)
        r cs.

(** Total-score cells holding an infinity, an unparseable text, nothing,
    and a number. *)
Definition odd_totals : DataFrame :=
  mkDF [c_dept; c_rank; c_total]
       [mkrow [(c_dept, Str "영업"); (c_rank, Str "대리"); (c_total, Num PInf)];
        mkrow [(c_dept, Str "영업"); (c_rank, Str "사원"); (c_total, Str "-inf")];
        mkrow [(c_dept, Str "개발"); (c_rank, Str "과장"); (c_total, Str "미정")];
        mkrow [(c_dept, Str "개발"); (c_rank, Str "사원"); (c_total, Null)];
        mkrow [(c_dept, Str "개발"); (c_rank, Str "부장"); (c_total, Str "70.5")]].

(** A complete upload; the second row has total 5 over a prior-year total
    of 0, the third has 0 over 0. *)
Definition full_row (dept rank grade : string)
    (perf comp total tenure prev : cell) : row :=
  mkrow [(c_dept, Str dept); (c_rank, Str rank); (c_grade, Str grade);
         (c_perf, perf); (c_comp, comp); (c_total, total);
         (c_tenure, tenure); (c_prev, prev)].

Definition all_cols : list string :=
  [c_dept; c_rank; c_grade; c_perf; c_comp; c_total; c_tenure; c_prev].

Definition upload : DataFrame :=
  mkDF all_cols
       [full_row "영업" "부장" "S" (num 90 1) (num 80 1) (num 88 1) (num 12 1)
                 (num 80 1);
        full_row "영업" "사원" "C" (num 5 1) (num 5 1) (num 5 1) (num 1 1)
                 (num 0 1);
        full_row "개발" "사원" "D" (num 0 1) (num 0 1) (num 0 1) (num 2 1)
                 (num 0 1);
        full_row "개발" "과장" "A" (num 70 1) (num 85 1) (num 75 1)
                 (num 201 100) (num 90 1)].

(** The table restricted to the rows that satisfy [p]. *)
Definition keep_rows (p : row → bool) (df : DataFrame) : DataFrame :=
  mkDF (columns df) (select p (rows df)).

(** Line 263 as a row update. *)
Definition with_bucket (r : row) : row :=
  <[c_bucket := cut bins labels (numof c_tenure r)]> r.

(** Lines 45 and 47 as a row update, for a header given by [present]. *)
Definition with_categories (present : string → bool) (r : row) : row :=
  let r1 := if present c_rank
            then <[c_rank := categorical rank_order (cellof c_rank r)]> r
            else r in
  if present c_grade
  then <[c_grade := categorical grade_order (cellof c_grade r1)]> r1
  else r1.

(** The columns that tab8 reads. *)
Definition tab8_cols : list string :=
  [c_dept; c_grade; c_tenure; c_total; c_rank; c_comp; c_perf].

(** The observed categories, in category order. *)
Definition observed (cats : list string) (key : string) (rs : list row)
  : list string :=
  List.filter (λ k, existsb (λ r, cell_is k (cellof key r)) rs) cats.

(** Tenure cells 2.0, 2.01, 0, an unparseable text, nothing, and 150. *)
Definition tenures : DataFrame :=
  mkDF all_cols
       [full_row "영업" "부장" "S" (num 90 1) (num 80 1) (num 88 1) (num 2 1)
                 (num 80 1);
        full_row "영업" "사원" "C" (num 60 1) (num 70 1) (num 64 1)
                 (num 201 100) (num 60 1);
        full_row "개발" "사원" "B" (num 70 1) (num 70 1) (num 70 1) (num 0 1)
                 (num 65 1);
        full_row "개발" "대리" "B" (num 75 1) (num 70 1) (num 72 1) (Str "신규")
                 (num 65 1);
        full_row "개발" "차장" "A" (num 80 1) (num 85 1) (num 82 1) Null
                 (num 90 1);
        full_row "개발" "과장" "A" (num 70 1) (num 85 1) (num 76 1) (num 150 1)
                 (num 90 1)].

(** A cell that holds one of the categories. *)
Definition in_cats (cats : list string) (c : cell) : bool :=
  match c with Str s => bool_decide (s ∈ cats) | _ => false end.

(** The sample upload with two more rows: a rank outside the enumeration
    and an empty rank cell. *)
Definition ranks : DataFrame :=
  mkDF all_cols
       (rows upload
        ++ [full_row "개발" "인턴" "B" (num 70 1) (num 70 1) (num 71 1)
                     (num 1 1) (num 65 1);
            <[c_rank := Null]>
              (full_row "영업" "" "E" (num 75 1) (num 70 1) (num 73 1)
                        (num 3 1) (num 65 1))]).

(** The aggregate of tab1 on one group. *)
Definition group_mean_total (g : list row) : float := mean (numof c_total <$> g).

(** Lines 245-247 on the rows of the table. *)
Definition dept_counts (rs : list row) : list (cell * nat) :=
  agg length (groupby c_dept rs).

Definition talent_density_of (rs : list row) : list (cell * float) :=
  sort_values snd false
    ((λ kv, (kv.1, fillna zero (kv.2 * of_Z 100)%F))
       <$> align_div
             (dept_counts (select (λ r, is_star_grade (cellof c_grade r)) rs))
             (dept_counts rs)).

(** Line 276 and the reshaping of line 279. *)
Definition rank_balance_of (rs : list row) : list (string * string * float) :=
  melt (agg (λ g, (mean (numof c_comp <$> g), mean (numof c_perf <$> g)))
            (groupby_cat rank_order c_rank rs)).

(** The rows of one department; those of them with grade S or A. *)
Definition dept_rows (d : cell) (rs : list row) : list row :=
  select (λ r, bool_decide (cellof c_dept r = d)) rs.

Definition dept_star_rows (d : cell) (rs : list row) : list row :=
  dept_rows d (select (λ r, is_star_grade (cellof c_grade r)) rs).

(** Two departments: one of three rows with grades S, A, C, one of two
    rows with grades B and D; a row without department. *)
Definition depts : DataFrame :=
  mkDF all_cols
       [full_row "영업" "부장" "S" (num 90 1) (num 80 1) (num 88 1) (num 12 1)
                 (num 80 1);
        full_row "개발" "사원" "B" (num 70 1) (num 70 1) (num 70 1) (num 1 1)
                 (num 65 1);
        full_row "영업" "과장" "A" (num 80 1) (num 85 1) (num 82 1) (num 7 1)
                 (num 90 1);
        <[c_dept := Null]>
          (full_row "" "대리" "S" (num 95 1) (num 85 1) (num 91 1) (num 4 1)
                    (num 90 1));
        full_row "개발" "사원" "D" (num 50 1) (num 60 1) (num 54 1) (num 2 1)
                 (num 60 1);
        full_row "영업" "사원" "C" (num 60 1) (num 70 1) (num 64 1) (num 3 1)
                 (num 60 1)].

(** Line 211 as a row update; line 234 on the rows of the table. *)
Definition with_diff (r : row) : row :=
  <[c_diff := Num (numof c_total r - numof c_prev r)%F]> r.

Definition dept_std_of (sqrt_q : Qc → Qc) (rs : list row)
  : list (cell * float) :=
  sort_values snd false
    (agg (λ g, std sqrt_q (numof c_total <$> g)) (groupby c_dept rs)).

(** The columns that tab7 reads in every run. *)
Definition tab7_cols : list string := [c_comp; c_perf; c_dept; c_total].

(** The sum of the squared deviations from [m]. *)
Definition sq_dev (m : float) (xs : list float) : float :=
  Float.sum ((λ y, (y - m) * (y - m))%F <$> xs).

(** Departments of three rows, one row and two rows. *)
Definition spread : DataFrame :=
  mkDF [c_dept; c_rank; c_total; c_comp; c_perf]
       [mkrow [(c_dept, Str "영업"); (c_rank, Str "대리"); (c_total, num 70 1);
               (c_comp, num 75 1); (c_perf, num 65 1)];
        mkrow [(c_dept, Str "기획"); (c_rank, Str "사원"); (c_total, num 99 1);
               (c_comp, num 85 1); (c_perf, num 60 1)];
        mkrow [(c_dept, Str "영업"); (c_rank, Str "과장"); (c_total, num 80 1);
               (c_comp, num 70 1); (c_perf, num 90 1)];
        mkrow [(c_dept, Str "개발"); (c_rank, Str "부장"); (c_total, num 60 1);
               (c_comp, num 90 1); (c_perf, num 88 1)];
        mkrow [(c_dept, Str "영업"); (c_rank, Str "사원"); (c_total, num 90 1);
               (c_comp, num 60 1); (c_perf, num 70 1)];
        mkrow [(c_dept, Str "개발"); (c_rank, Str "사원"); (c_total, num 62 1);
               (c_comp, num 65 1); (c_perf, num 75 1)]].

(** The table without one of its columns. *)
Definition drop_col (c : string) (df : DataFrame) : DataFrame :=
  mkDF (List.filter (λ c', negb (bool_decide (c' = c))) (columns df))
       (delete c <$> rows df).


(** The labels of the derived columns, and the order in which a run first
    reads the columns it cannot do without. *)
Definition derived_cols : list string :=
  [c_change; c_delta; c_absdelta; c_growth; c_diff; c_bucket].

Definition read_order : list string :=
  [c_total; c_tenure; c_comp; c_perf; c_dept; c_grade; c_rank].

Definition first_missing (df : DataFrame) : option string :=
  List.find (λ c, negb (has_col c df)) read_order.

(** Two tables with the same header apart from derived columns. *)
Definition same_base (d d' : DataFrame) : Prop :=
  ∀ c, c ∉ derived_cols → has_col c d' = has_col c d.

(** Lines 112, 154-157 as row updates. *)
Definition with_change (r : row) : row :=
  <[c_change := Num (numof c_total r - numof c_prev r)%F]> r.

Definition with_growth (r : row) : row :=
  let r1 := <[c_delta := Num (numof c_total r - numof c_prev r)%F]> r in
  let r2 := <[c_absdelta := Num (abs (numof c_delta r1))]> r1 in
  <[c_growth := Num (growth_pct (numof c_delta r2) (numof c_prev r2))]> r2.

(** All the derived columns of a run on one row. *)
Definition derive (has_prev : bool) (r : row) : row :=
  with_bucket (if has_prev then with_diff (with_growth (with_change r)) else r).

(** The first row of the sample upload as a run leaves it. *)
Definition upload_out_row : row :=
  derive true
    (with_categories (λ c, has_col c (normalize parse_decimal upload))
       (norm_row parse_decimal (λ c, has_col c upload) target_cols
          (full_row "영업" "부장" "S" (num 90 1) (num 80 1) (num 88 1)
                    (num 12 1) (num 80 1)))).

(** * Properties *)

(** ** Floats *)

Example div_5_0 : (of_Z 5 / zero)%F = PInf.
Proof. reflexivity. Qed.

Example div_0_0 : (zero / zero)%F = NaN.
Proof. reflexivity. Qed.

Lemma Qc_leb_le (a b : Qc) : Qc_leb a b = true ↔ (a <= b)%Qc.
Proof. unfold Qc_leb, Qcle. apply Qle_bool_iff. Qed.

Lemma Qc_leb_total (a b : Qc) : Qc_leb a b = true ∨ Qc_leb b a = true.
Proof.
  rewrite !Qc_leb_le. destruct (Qclt_le_dec a b) as [H|H]; [left|right]; auto.
  by apply Qclt_le_weak.
Qed.

Lemma le_refl (x : float) : is_nan x = false → (x <=? x)%F = true.
Proof. destruct x; simpl; try done. intros _. apply Qc_leb_le, Qcle_refl. Qed.

Lemma le_total (x y : float) :
  is_nan x = false → is_nan y = false →
  (x <=? y)%F = true ∨ (y <=? x)%F = true.
Proof. destruct x, y; simpl; auto using Qc_leb_total. Qed.

Lemma le_trans (x y z : float) :
  (x <=? y)%F = true → (y <=? z)%F = true → (x <=? z)%F = true.
Proof.
  destruct x, y, z; simpl; try done.
  rewrite !Qc_leb_le. apply Qcle_trans.
Qed.

Lemma le_not_nan (x y : float) :
  (x <=? y)%F = true → is_nan x = false ∧ is_nan y = false.
Proof. by destruct x, y. Qed.

Lemma lt_le (x y : float) : (x <? y)%F = true → (x <=? y)%F = true.
Proof. unfold lt. by intros [? _]%andb_true_iff. Qed.

Lemma lt_not_ge (x y : float) : (x <? y)%F = true → (y <=? x)%F = false.
Proof. unfold lt. intros [_ H]%andb_true_iff. by apply negb_true_iff. Qed.

Lemma eqb_eq (x y : float) : Float.eqb x y = true → x = y.
Proof.
  destruct x, y; simpl; try done.
  unfold Qc_eqb. intros H%Qeq_bool_iff. f_equal. by apply Qc_is_canon.
Qed.

Lemma floats_eqb_eq (xs ys : list float) : floats_eqb xs ys = true → xs = ys.
Proof.
  revert ys. induction xs as [|x xs IH]; intros [|y ys]; simpl; try done.
  intros [Hx Hxs]%andb_true_iff. f_equal; [by apply eqb_eq|by apply IH].
Qed.




(** ** Lists: filtering and sorting *)


Lemma elem_of_filter_bool {A} (p : A → bool) (l : list A) (x : A) :
  x ∈ List.filter p l ↔ x ∈ l ∧ p x = true.
Proof. rewrite !list_elem_of_In. apply filter_In. Qed.

Lemma filter_all {A} (p : A → bool) (l : list A) :
  (∀ x, x ∈ l → p x = true) → List.filter p l = l.
Proof.
  induction l as [|x l IH]; simpl; intros H; [done|].
  rewrite (H x) by apply list_elem_of_here.
  f_equal. apply IH. intros y Hy. apply H. by apply list_elem_of_further.
Qed.

Lemma filter_none {A} (p : A → bool) (l : list A) :
  (∀ x, x ∈ l → p x = false) → List.filter p l = [].
Proof.
  induction l as [|x l IH]; simpl; intros H; [done|].
  rewrite (H x) by apply list_elem_of_here.
  apply IH. intros y Hy. apply H. by apply list_elem_of_further.
Qed.

Lemma filter_filter_and {A} (p q : A → bool) (l : list A) :
  List.filter p (List.filter q l) = List.filter (λ x, q x && p x) l.
Proof.
  induction l as [|x l IH]; simpl; [done|].
  destruct (q x); simpl; [destruct (p x)|]; by rewrite IH.
Qed.

Lemma filter_ext_in_bool {A} (p q : A → bool) (l : list A) :
  (∀ x, x ∈ l → p x = q x) → List.filter p l = List.filter q l.
Proof.
  intros H. apply filter_ext_in. intros x Hx. apply H. by apply list_elem_of_In.
Qed.

Lemma insert_by_perm {A} (leb : A → A → bool) (x : A) (l : list A) :
  insert_by leb x l ≡ₚ x :: l.
Proof.
  induction l as [|y l IH]; simpl; [done|].
  destruct (leb x y); [done|]. rewrite IH. apply perm_swap.
Qed.

Lemma sort_by_perm {A} (leb : A → A → bool) (l : list A) :
  sort_by leb l ≡ₚ l.
Proof.
  induction l as [|x l IH]; simpl; [done|].
  by rewrite insert_by_perm, IH.
Qed.

Lemma sort_by_length {A} (leb : A → A → bool) (l : list A) :
  length (sort_by leb l) = length l.
Proof. by rewrite sort_by_perm. Qed.

Lemma elem_of_sort_by {A} (leb : A → A → bool) (l : list A) (x : A) :
  x ∈ sort_by leb l ↔ x ∈ l.
Proof. by rewrite sort_by_perm. Qed.

Lemma insert_by_sorted {A} (leb : A → A → bool) (x : A) (l : list A) :
  (∀ y, y ∈ l → leb x y = true ∨ leb y x = true) →
  Sorted (leb_rel leb) l → Sorted (leb_rel leb) (insert_by leb x l).
Proof.
  induction l as [|y l IH]; simpl; intros Htot Hs.
  - by repeat constructor.
  - destruct (leb x y) eqn:E.
    + constructor; [done|]. by constructor.
    + apply Sorted_inv in Hs as [Hs Hhd].
      constructor.
      * apply IH; [|done]. intros z Hz. apply Htot. by right.
      * destruct l as [|z l]; simpl.
        -- constructor. destruct (Htot y) as [?|?]; [by left|congruence|done].
        -- destruct (leb x z).
           ++ constructor. destruct (Htot y) as [?|?]; [by left|congruence|done].
           ++ constructor. by apply HdRel_inv in Hhd.
Qed.

Lemma sort_by_sorted {A} (leb : A → A → bool) (l : list A) :
  (∀ x y, x ∈ l → y ∈ l → leb x y = true ∨ leb y x = true) →
  Sorted (leb_rel leb) (sort_by leb l).
Proof.
  induction l as [|x l IH]; simpl; intros Htot; [constructor|].
  apply insert_by_sorted.
  - intros y Hy%elem_of_sort_by. apply Htot; [by left|by right].
  - apply IH. intros y z Hy Hz. apply Htot; by right.
Qed.


Lemma filter_split_perm {A} (p : A → bool) (l : list A) :
  List.filter p l ++ List.filter (λ a, negb (p a)) l ≡ₚ l.
Proof.
  induction l as [|x l IH]; simpl; [done|].
  destruct (p x); simpl.
  - by rewrite IH.
  - by rewrite <- Permutation_middle, IH.
Qed.

(** ** [sort_values] *)

Lemma sort_values_perm {A} (key : A → float) (asc : bool) (l : list A) :
  sort_values key asc l ≡ₚ l.
Proof.
  unfold sort_values. rewrite sort_by_perm.
  rewrite (Permutation_app_comm _ _).
  apply (filter_split_perm (λ a, is_nan (key a))).
Qed.

Lemma key_leb_total {A} (key : A → float) (asc : bool) (a b : A) :
  is_nan (key a) = false → is_nan (key b) = false →
  key_leb key asc a b = true ∨ key_leb key asc b a = true.
Proof.
  intros Ha Hb. unfold key_leb. destruct asc; auto using le_total.
Qed.

Lemma sort_values_no_nan {A} (key : A → float) (asc : bool) (l : list A) :
  (∀ a, a ∈ l → is_nan (key a) = false) →
  sort_values key asc l = sort_by (key_leb key asc) l.
Proof.
  intros H. unfold sort_values.
  rewrite filter_all, filter_none, app_nil_r; [done|done|].
  intros a Ha. by rewrite H.
Qed.

(** The sorted part comes first, the rows with a NaN key last. *)
Lemma sort_values_sorted {A} (key : A → float) (asc : bool) (l : list A) :
  ∃ s n, sort_values key asc l = s ++ n
         ∧ Sorted (leb_rel (key_leb key asc)) s
         ∧ (∀ a, a ∈ s → is_nan (key a) = false)
         ∧ (∀ a, a ∈ n → is_nan (key a) = true).
Proof.
  eexists _, _. split; [reflexivity|]. split; [|split].
  - apply sort_by_sorted. intros x y Hx Hy.
    apply elem_of_filter_bool in Hx as [_ Hx], Hy as [_ Hy].
    apply negb_true_iff in Hx, Hy. by apply key_leb_total.
  - intros a Ha%elem_of_sort_by. apply elem_of_filter_bool in Ha as [_ Ha].
    by apply negb_true_iff.
  - intros a Ha. by apply elem_of_filter_bool in Ha as [_ Ha].
Qed.

Lemma sort_values_sorted_no_nan {A} (key : A → float) (asc : bool) (l : list A) :
  (∀ a, a ∈ l → is_nan (key a) = false) →
  Sorted (leb_rel (key_leb key asc)) (sort_values key asc l).
Proof.
  intros H. rewrite sort_values_no_nan by done.
  apply sort_by_sorted. intros x y Hx Hy. apply key_leb_total; by apply H.
Qed.

(** ** Headers and rows *)

Lemma has_col_true (c : string) (df : DataFrame) :
  has_col c df = true ↔ c ∈ columns df.
Proof. unfold has_col. apply bool_decide_eq_true. Qed.

Lemma has_col_assign (c c' : string) (f : row → cell) (df : DataFrame) :
  has_col c (assign c' f df) = has_col c df || bool_decide (c = c').
Proof.
  apply eq_true_iff_eq. rewrite orb_true_iff, bool_decide_eq_true.
  rewrite !has_col_true. simpl. destruct (has_col c' df) eqn:E.
  - apply has_col_true in E. split; [by left|]. by intros [?| ->].
  - by rewrite elem_of_app, list_elem_of_singleton.
Qed.

Lemma has_col_assign_keep (c c' : string) (f : row → cell) (df : DataFrame) :
  has_col c df = true → has_col c (assign c' f df) = true.
Proof. intros H. by rewrite has_col_assign, H. Qed.

Lemma has_col_assign_self (c : string) (f : row → cell) (df : DataFrame) :
  has_col c (assign c f df) = true.
Proof. rewrite has_col_assign, bool_decide_true by done. apply orb_true_r. Qed.

Lemma has_col_assign_ne (c c' : string) (f : row → cell) (df : DataFrame) :
  c ≠ c' → has_col c (assign c' f df) = has_col c df.
Proof.
  intros H. rewrite has_col_assign, bool_decide_false by done. apply orb_false_r.
Qed.

Lemma cellof_insert (c c' : string) (v : cell) (r : row) :
  cellof c (<[c' := v]> r) = if decide (c' = c) then v else cellof c r.
Proof. unfold cellof. rewrite lookup_insert. by case_decide. Qed.

Lemma numof_insert_ne (c c' : string) (v : cell) (r : row) :
  c' ≠ c → numof c (<[c' := v]> r) = numof c r.
Proof. intros H. unfold numof. rewrite cellof_insert. by case_decide. Qed.

Lemma numof_insert_eq (c : string) (x : float) (r : row) :
  numof c (<[c := Num x]> r) = x.
Proof. unfold numof. rewrite cellof_insert. by case_decide. Qed.

Lemma require_ok (cs : list string) (df : DataFrame) :
  (∀ c, c ∈ cs → has_col c df = true) → require cs df = Ok tt.
Proof.
  induction cs as [|c cs IH]; simpl; intros H; [done|].
  rewrite (H c) by apply list_elem_of_here.
  apply IH. intros c' Hc'. apply H. by apply list_elem_of_further.
Qed.

Lemma getnum_ok (c : string) (df : DataFrame) :
  has_col c df = true → getnum c df = Ok (numof c <$> rows df).
Proof. intros H. unfold getnum. by rewrite H. Qed.

Lemma getnum_err (c : string) (df : DataFrame) :
  has_col c df = false → getnum c df = KeyError c.
Proof. intros H. unfold getnum. by rewrite H. Qed.

(** A run that passes a boolean test returns a value that passes it. *)
Lemma result_check {A} (m : result A) (P : A → bool) :
  match m with Ok a => P a | KeyError _ => false end = true →
  ∃ a, m = Ok a ∧ P a = true.
Proof. destruct m as [a|c]; [|done]. intros H. by exists a. Qed.

Lemma bind_ok {A B} (a : A) (f : A → result B) : (Ok a ≫= f) = f a.
Proof. reflexivity. Qed.

Lemma bind_err {A B} (c : string) (f : A → result B) :
  (KeyError c ≫= f) = KeyError c.
Proof. reflexivity. Qed.

(** ** Top-decile selection (tab5) *)

Lemma dropna_no_nan (xs : list float) :
  (∀ x, x ∈ xs → is_nan x = false) → dropna xs = xs.
Proof. intros H. apply filter_all. intros x Hx. by rewrite H. Qed.




(** ** Shock-drop detection (tab7) *)

Section Shock.

Context (sqrt_q : Qc → Qc).

(** C7.  With the prior-year column present, the shock-drop list holds
    exactly the rows whose change (total minus prior-year total) is at
    most -10, in ascending order of the change; a change of exactly -10 is
    in the list, a change of -9.99 is not. *)
Theorem shock_drop_selection (df : DataFrame) :
  has_col c_comp df = true →
  has_col c_perf df = true →
  has_col c_total df = true →
  has_col c_prev df = true →
  has_col c_dept df = true →
  ∃ df' rk wd,
    tab7 sqrt_q df = Ok (df', rk)
    ∧ warning_drop rk = Some wd
    ∧ rows df'
      = (λ r, <[c_diff := Num (numof c_total r - numof c_prev r)%F]> r)
          <$> rows df
    ∧ wd ≡ₚ select (λ r, (numof c_diff r <=? of_Z (-10))%F) (rows df')
    ∧ Sorted (λ a b, (numof c_diff a <=? numof c_diff b)%F = true) wd
    ∧ (∀ r, r ∈ rows df' → numof c_diff r = of_Z (-10) → r ∈ wd)
    ∧ (∀ r, r ∈ rows df' → numof c_diff r = (-999) #f 100 → r ∉ wd).
Proof.
  intros Hcomp Hperf Htot Hprev Hdept.
  unfold tab7. rewrite !getnum_ok, !bind_ok by done.
  rewrite Hprev. simpl require. rewrite Htot, Hprev, !bind_ok.
  cbn [mbind result_bind].
  rewrite !has_col_assign_keep by done. cbn [mbind result_bind].
  eexists _, _, _. split; [reflexivity|]. split; [reflexivity|].
  split; [reflexivity|].
  set (sel := select _ _).
  assert (∀ r, r ∈ sel → is_nan (numof c_diff r) = false) as Hnn.
  { intros r [_ Hr]%elem_of_filter_bool. by apply le_not_nan in Hr as [? _]. }
  split; [apply sort_values_perm|]. split.
  - by apply (sort_values_sorted_no_nan (numof c_diff) true).
  - split; intros r Hr Hd.
    + rewrite sort_values_perm. apply elem_of_filter_bool. by rewrite Hd.
    + rewrite sort_values_perm. intros [_ Hle]%elem_of_filter_bool.
      by rewrite Hd in Hle.
Qed.

End Shock.

Lemma shock_drop_selection_witness :
  ∃ df' rk wd,
    tab7 sqrt_12 drops = Ok (df', rk)
    ∧ warning_drop rk = Some wd
    ∧ rows df'
      = (λ r, <[c_diff := Num (numof c_total r - numof c_prev r)%F]> r)
          <$> rows drops
    ∧ wd ≡ₚ select (λ r, (numof c_diff r <=? of_Z (-10))%F) (rows df')
    ∧ Sorted (λ a b, (numof c_diff a <=? numof c_diff b)%F = true) wd
    ∧ (∀ r, r ∈ rows df' → numof c_diff r = of_Z (-10) → r ∈ wd)
    ∧ (∀ r, r ∈ rows df' → numof c_diff r = (-999) #f 100 → r ∉ wd).
Proof. apply (shock_drop_selection sqrt_12 drops); reflexivity. Defined.

(** On the sample table the change -10 is listed after -25, and the change
    -9.99 is not listed. *)
Example shock_drop_sample :
  ∃ df' rk wd,
    tab7 sqrt_12 drops = Ok (df', rk)
    ∧ warning_drop rk = Some wd
    ∧ numof c_diff <$> wd = [of_Z (-25); of_Z (-10)].
Proof.
  eexists _, _, _. split; [reflexivity|]. split; [reflexivity|].
  apply floats_eqb_eq. vm_compute. reflexivity.
Qed.

(** ** Growth percent (tab6) *)

Lemma sgn_sub_zero (t : Qc) : sgn (t + - Q2Qc (inject_Z 0)) = sgn t.
Proof.
  change (Q2Qc (inject_Z 0)) with 0%Qc.
  replace (t + - 0)%Qc with t by ring. done.
Qed.

(** A non-zero prior-year total: the plain ratio (unless it overflows,
    which exact arithmetic does not). *)
Lemma growth_pct_ratio (t p : Qc) :
  sgn p ≠ Eq →
  growth_pct (Fin t - Fin p) (Fin p)
  = Fin ((t - p) / p * Q2Qc (inject_Z 100)).
Proof. intros Hp. unfold growth_pct. simpl. by destruct (sgn p). Qed.

(** Prior-year total 0 and a non-zero total: the infinite ratio is
    replaced by 0. *)
Lemma growth_pct_zero_prior (t : Qc) :
  sgn t ≠ Eq → growth_pct (Fin t - zero) zero = zero.
Proof.
  intros Ht. unfold growth_pct. simpl. rewrite sgn_sub_zero.
  by destruct (sgn t).
Qed.

Example growth_pct_5_0 : growth_pct (of_Z 5 - zero) zero = zero.
Proof. reflexivity. Qed.

(** Prior-year total 0 and total 0: the ratio 0/0 is NaN, which
    [replace] leaves in place. *)
Lemma growth_pct_zero_zero : growth_pct (zero - zero) zero = NaN.
Proof. reflexivity. Qed.

(** C1.  On the sample upload the growth percent of the row with total 5
    over prior-year total 0 is 0, and that of the row with total 0 over
    prior-year total 0 is NaN. *)
Theorem growth_percent_zero_over_zero :
  ∃ o, pipeline parse_decimal sqrt_12 upload = Ok o
       ∧ numof c_growth <$> rows (out_df o)
         = [of_Z 10; zero; NaN; (-50) #f 3].
Proof.
  destruct (result_check (pipeline parse_decimal sqrt_12 upload)
              (λ o, floats_eqb (numof c_growth <$> rows (out_df o))
                               [of_Z 10; zero; NaN; (-50) #f 3]))
    as (o & Ho & Hp); [vm_compute; reflexivity|].
  exists o. split; [done|]. by apply floats_eqb_eq.
Qed.

(** ** Normalisation (lines 23-26) *)

Section Normalize.

Context (parse : string → option float).

Lemma coerce_num (c : cell) :
  ∃ x, coerce parse c = Num x
       ∧ x = fillna zero (to_numeric parse c)
       ∧ is_nan x = false
       ∧ (is_nan (to_numeric parse c) = true → x = zero)
       ∧ is_finite x = negb (is_inf (to_numeric parse c)).
Proof.
  eexists. split; [reflexivity|]. split; [reflexivity|].
  unfold fillna. by destruct (to_numeric parse c).
Qed.

Lemma normalize_fold (df0 d : DataFrame) (cs : list string) :
  columns d = columns df0 →
  foldl (λ d col, if has_col col d then map_col col (coerce parse) d else d)
        d cs
  = mkDF (columns df0)
         (norm_row parse (λ c, has_col c df0) cs <$> rows d).
Proof.
  revert d. induction cs as [|c cs IH]; intros d Hd.
  - simpl. rewrite list_fmap_id. destruct d; simpl in *. by subst.
  - assert (has_col c d = has_col c df0) as Hc by (unfold has_col; by rewrite Hd).
    cbn [foldl]. rewrite Hc. destruct (has_col c df0) eqn:E.
    + rewrite IH.
      * f_equal. cbn [rows map_col assign]. rewrite <- list_fmap_compose.
        apply list_fmap_ext. intros i r _. cbn [compose norm_row foldl].
        by rewrite E.
      * cbn [columns map_col assign]. by rewrite Hc.
    + rewrite IH by done. f_equal. apply list_fmap_ext. intros i r _.
      cbn [norm_row foldl]. by rewrite E.
Qed.

Lemma normalize_rows (df : DataFrame) :
  normalize parse df
  = mkDF (columns df)
         (norm_row parse (λ c, has_col c df) target_cols <$> rows df).
Proof. by apply normalize_fold. Qed.

Lemma has_col_normalize (c : string) (df : DataFrame) :
  has_col c (normalize parse df) = has_col c df.
Proof. by rewrite normalize_rows. Qed.

Lemma cellof_norm_row_notin (pres : string → bool) (cs : list string)
    (c : string) (r : row) :
  c ∉ cs → cellof c (norm_row parse pres cs r) = cellof c r.
Proof.
  revert r. induction cs as [|c' cs IH]; intros r Hc; simpl; [done|].
  apply not_elem_of_cons in Hc as [Hne Hc].
  rewrite IH by done. destruct (pres c'); [|done].
  rewrite cellof_insert. by case_decide.
Qed.

Lemma cellof_norm_row (pres : string → bool) (cs : list string)
    (c : string) (r : row) :
  NoDup cs → c ∈ cs → pres c = true →
  cellof c (norm_row parse pres cs r) = coerce parse (cellof c r).
Proof.
  revert r. induction cs as [|c' cs IH]; intros r Hnd Hc Hp; simpl.
  - by apply elem_of_nil in Hc.
  - apply NoDup_cons in Hnd as [Hc' Hnd].
    apply elem_of_cons in Hc as [->|Hc].
    + rewrite Hp, cellof_norm_row_notin by done.
      rewrite cellof_insert. by case_decide.
    + rewrite IH by done. destruct (pres c'); [|done].
      rewrite cellof_insert. case_decide; [|done]. by subst.
Qed.

Lemma target_cols_nodup : NoDup target_cols.
Proof. compute_done. Qed.

(** C3, as the code has it.  After normalisation every present target
    column holds, in every row, a float that is not NaN: the parsed value
    of the cell, or 0.0 where the cell is empty or does not parse.  The
    value is finite unless the cell itself denotes an infinity, which is
    kept. *)
Theorem normalize_no_nan (df : DataFrame) (c : string) :
  c ∈ target_cols →
  has_col c df = true →
  columns (normalize parse df) = columns df
  ∧ ∃ f, rows (normalize parse df) = f <$> rows df
         ∧ ∀ r, ∃ x,
             cellof c (f r) = Num x
             ∧ x = fillna zero (to_numeric parse (cellof c r))
             ∧ is_nan x = false
             ∧ (is_nan (to_numeric parse (cellof c r)) = true → x = zero)
             ∧ is_finite x = negb (is_inf (to_numeric parse (cellof c r))).
Proof.
  intros Hc Hp. rewrite normalize_rows. split; [done|].
  eexists. split; [reflexivity|]. intros r.
  rewrite cellof_norm_row by auto using target_cols_nodup.
  apply coerce_num.
Qed.

End Normalize.

Lemma normalize_no_nan_witness :
  columns (normalize parse_decimal odd_totals) = columns odd_totals
  ∧ ∃ f, rows (normalize parse_decimal odd_totals) = f <$> rows odd_totals
         ∧ ∀ r, ∃ x,
             cellof c_total (f r) = Num x
             ∧ x = fillna zero (to_numeric parse_decimal (cellof c_total r))
             ∧ is_nan x = false
             ∧ (is_nan (to_numeric parse_decimal (cellof c_total r)) = true
                → x = zero)
             ∧ is_finite x
               = negb (is_inf (to_numeric parse_decimal (cellof c_total r))).
Proof.
  apply (normalize_no_nan parse_decimal odd_totals c_total).
  - unfold target_cols. set_solver.
  - reflexivity.
Defined.

(** The cells of the sample after normalisation: the two infinities stay,
    the unparseable text and the empty cell become 0.0. *)
Example normalize_odd_totals :
  numof c_total <$> rows (normalize parse_decimal odd_totals)
  = [PInf; NInf; zero; zero; 705 #f 10].
Proof. apply floats_eqb_eq. vm_compute. reflexivity. Qed.

(** A normalised total score that is not finite. *)
Lemma normalize_keeps_infinity :
  ¬ (∀ r, r ∈ rows (normalize parse_decimal odd_totals) →
          is_finite (numof c_total r) = true).
Proof.
  intros H.
  specialize (H (norm_row parse_decimal (λ c, has_col c odd_totals) target_cols
                    (mkrow [(c_dept, Str "영업"); (c_rank, Str "대리");
                            (c_total, Num PInf)]))).
  assert (is_finite PInf = true) as Hf; [|done].
  rewrite normalize_rows in H. apply H.
  apply list_elem_of_fmap_2, list_elem_of_here.
Qed.

(** ** Grouping on a categorical column *)

Lemma filter_fmap {A B} (p : B → bool) (f : A → B) (l : list A) :
  List.filter p (f <$> l) = f <$> List.filter (λ a, p (f a)) l.
Proof.
  induction l as [|a l IH]; csimpl; [done|].
  destruct (p (f a)); csimpl; by rewrite IH.
Qed.

Lemma agg_groupby_cat {V} (f : list row → V) (cats : list string)
    (key : string) (rs : list row) :
  agg f (groupby_cat cats key rs)
  = flat_map (λ k, match select (λ r, cell_is k (cellof key r)) rs with
                   | [] => []
                   | g => [(k, f g)]
                   end) cats.
Proof.
  unfold agg, groupby_cat. induction cats as [|k cats IH]; simpl; [done|].
  rewrite fmap_app, IH. f_equal. by destruct (select _ rs).
Qed.

Lemma select_nil_existsb (p : row → bool) (rs : list row) :
  select p rs = [] ↔ existsb p rs = false.
Proof.
  unfold select. induction rs as [|r rs IH]; simpl; [done|].
  destruct (p r); simpl; [|done]. split; discriminate.
Qed.

Lemma agg_groupby_cat_keys {V} (f : list row → V) (cats : list string)
    (key : string) (rs : list row) :
  (agg f (groupby_cat cats key rs)).*1 = observed cats key rs.
Proof.
  rewrite agg_groupby_cat. unfold observed.
  induction cats as [|k cats IH]; simpl; [done|].
  rewrite fmap_app, IH.
  destruct (select _ rs) eqn:E.
  - apply select_nil_existsb in E. by rewrite E.
  - destruct (existsb _ rs) eqn:E'; [done|].
    apply select_nil_existsb in E'. congruence.
Qed.

Lemma elem_of_agg_groupby_cat {V} (f : list row → V) (cats : list string)
    (key : string) (rs : list row) (k : string) (v : V) :
  (k, v) ∈ agg f (groupby_cat cats key rs) →
  k ∈ cats ∧ v = f (select (λ r, cell_is k (cellof key r)) rs).
Proof.
  rewrite agg_groupby_cat. intros H%list_elem_of_In%in_flat_map.
  destruct H as (k' & Hk' & H). apply list_elem_of_In in Hk'.
  destruct (select _ rs) eqn:E; [by apply in_nil in H|].
  apply list_elem_of_In, list_elem_of_singleton in H.
  injection H as -> ->. by rewrite E.
Qed.

Lemma elem_of_groupby_cat (cats : list string) (key : string)
    (rs : list row) (k : string) (g : list row) :
  (k, g) ∈ groupby_cat cats key rs →
  g = select (λ r, cell_is k (cellof key r)) rs.
Proof.
  unfold groupby_cat. intros H%list_elem_of_In%in_flat_map.
  destruct H as (k' & Hk' & H).
  destruct (select _ rs) eqn:E; [by apply in_nil in H|].
  apply list_elem_of_In, list_elem_of_singleton in H.
  injection H as -> ->. by rewrite E.
Qed.




(** ** Tenure buckets (tab8) *)

#[local] Instance le_rel_trans : Transitive (leb_rel Float.le).
Proof. intros x y z. apply le_trans. Qed.

Lemma cut_index_ge (x : float) (edges : list float) (k j : nat) :
  cut_index x edges k = Some j → k ≤ j.
Proof.
  revert k. induction edges as [|lo rest IH]; intros k; simpl; [done|].
  destruct rest as [|hi rest']; [done|].
  destruct ((lo <? x)%F && (x <=? hi)%F).
  - intros [= ->]. lia.
  - intros H%IH. lia.
Qed.

(** [cut_index] returns i exactly when x lies in the half-open interval
    (edges[i], edges[i+1]]. *)
Lemma cut_index_spec (x : float) (edges : list float) (k i : nat) :
  Sorted (leb_rel Float.le) edges →
  cut_index x edges k = Some (k + i)
  ↔ ∃ lo hi, edges !! i = Some lo ∧ edges !! S i = Some hi
             ∧ (lo <? x)%F && (x <=? hi)%F = true.
Proof.
  intros Hs. apply Sorted_StronglySorted in Hs; [|apply _].
  revert k i. induction Hs as [|lo rest Hs IH Hall]; intros k i.
  - simpl. split; [done|]. by intros (? & ? & ? & _).
  - simpl. destruct rest as [|hi rest'].
    { split; [done|]. intros (? & ? & _ & H & _). by destruct i. }
    destruct ((lo <? x)%F && (x <=? hi)%F) eqn:E.
    + split.
      * intros [= Hk]. assert (i = 0) as -> by lia. by exists lo, hi.
      * intros (lo' & hi' & Hlo & Hhi & Hin). destruct i as [|i].
        { f_equal. lia. }
        exfalso. simpl in Hlo.
        apply andb_true_iff in E as [_ Hx], Hin as [Hlt _].
        apply lt_not_ge in Hlt.
        assert ((hi <=? lo')%F = true) as Hle.
        { destruct i as [|i]; simpl in Hlo.
          - simplify_eq. apply le_refl. by apply le_not_nan in Hx as [_ ?].
          - apply StronglySorted_inv in Hs as [_ Hall'].
            rewrite Forall_forall in Hall'. apply Hall'.
            by eapply list_elem_of_lookup_2. }
        by rewrite (le_trans _ _ _ Hx Hle) in Hlt.
    + destruct i as [|i].
      * split.
        -- intros H%cut_index_ge. lia.
        -- intros (lo' & hi' & Hlo & Hhi & Hin). simpl in *. simplify_eq.
           congruence.
      * replace (k + S i) with (S k + i) by lia. rewrite IH. done.
Qed.

Lemma bins_sorted : Sorted (leb_rel Float.le) bins.
Proof. repeat constructor. Qed.

Lemma cut_nonpositive (x : float) :
  (x <=? zero)%F = true → cut bins labels x = Null.
Proof.
  intros Hx. unfold cut.
  destruct (cut_index x bins 0) as [i|] eqn:E; [|done].
  apply (cut_index_spec x bins 0 i bins_sorted) in E
    as (lo & hi & Hlo & _ & [Hlt%lt_not_ge _]%andb_true_iff).
  assert ((zero <=? lo)%F = true) as Hle.
  { apply list_elem_of_lookup_2 in Hlo. unfold bins in Hlo.
    rewrite !fmap_cons, !elem_of_cons in Hlo.
    destruct Hlo as [->|[->|[->|[->|[->|[->|Hlo]]]]]]; try done.
    by apply elem_of_nil in Hlo. }
  by rewrite (le_trans _ _ _ Hx Hle) in Hlt.
Qed.

Lemma c_bucket_ne_tenure : c_bucket ≠ c_tenure.
Proof. done. Qed.

Lemma c_bucket_ne_total : c_bucket ≠ c_total.
Proof. done. Qed.

Lemma tab8_cols_ok (df : DataFrame) (c : string) :
  (∀ c, c ∈ tab8_cols → has_col c df = true) →
  c ∈ tab8_cols → has_col c df = true.
Proof. auto. Qed.

(** Membership in a longer literal list from membership in a shorter one. *)
Ltac list_mem :=
  match goal with
  | Hc : _ ∈ _ |- _ ∈ _ =>
      revert Hc; rewrite !elem_of_cons, !elem_of_nil; tauto
  end.

(** With its columns present tab8 returns; its three series. *)
Lemma tab8_ok (df : DataFrame) :
  (∀ c, c ∈ tab8_cols → has_col c df = true) →
  tab8 df
  = Ok (mkDF (columns df ++ (if has_col c_bucket df then [] else [c_bucket]))
             (with_bucket <$> rows df),
        {| talent_density := talent_density_of (rows df);
           tenure_perf :=
             agg (λ g, mean (numof c_total <$> g))
                 (groupby_cat labels c_bucket (with_bucket <$> rows df));
           rank_balance := rank_balance_of (with_bucket <$> rows df) |}).
Proof.
  intros H. unfold tab8.
  set (df1 := assign c_bucket (λ r, cut bins labels (numof c_tenure r)) df).
  assert (∀ c, c ∈ tab8_cols → has_col c df1 = true) as H1
    by (intros c Hc; apply has_col_assign_keep; auto).
  assert (has_col c_bucket df1 = true) as Hb by apply has_col_assign_self.
  unfold tab8_cols in H, H1.
  assert (require [c_dept] df = Ok tt) as ->
    by (apply require_ok; intros c Hc; apply H; list_mem).
  assert (require [c_grade; c_dept] df = Ok tt) as ->
    by (apply require_ok; intros c Hc; apply H; list_mem).
  assert (require [c_tenure] df = Ok tt) as ->
    by (apply require_ok; intros c Hc; apply H; list_mem).
  assert (require [c_bucket; c_total] df1 = Ok tt) as ->.
  { apply require_ok. intros c [->|Hc]%elem_of_cons; [done|].
    apply H1. list_mem. }
  assert (require [c_rank; c_comp; c_perf] df1 = Ok tt) as ->
    by (apply require_ok; intros c Hc; apply H1; list_mem).
  rewrite !bind_ok. f_equal. f_equal.
  unfold df1, assign. f_equal. destruct (has_col c_bucket df); [|done].
  by rewrite app_nil_r.
Qed.

Lemma has_all_cols (df : DataFrame) (cs : list string) :
  forallb (λ c, has_col c df) cs = true → ∀ c, c ∈ cs → has_col c df = true.
Proof.
  intros H c Hc. rewrite forallb_forall in H. apply H. by apply list_elem_of_In.
Qed.

(** C6.  [pd.cut] assigns bucket i exactly on the half-open interval
    (bins[i], bins[i+1]] of the edges 0, 2, 5, 10, 20, 100; tenure 2.0 gets
    the first label and tenure 2.01 the second; the tenure series is the
    mean total score per bucket, listed in bucket order. *)
Theorem tenure_bucketing (df : DataFrame) :
  forallb (λ c, has_col c df) tab8_cols = true →
  (∀ x i,
      cut_index x bins 0 = Some i
      ↔ ∃ lo hi, bins !! i = Some lo ∧ bins !! S i = Some hi
                 ∧ (lo <? x)%F && (x <=? hi)%F = true)
  ∧ bins = [of_Z 0; of_Z 2; of_Z 5; of_Z 10; of_Z 20; of_Z 100]
  ∧ cut bins labels (of_Z 2) = Str "1-2년(신입)"
  ∧ cut bins labels (201 #f 100) = Str "3-5년(주니어)"
  ∧ ∃ df' en,
      tab8 df = Ok (df', en)
      ∧ rows df' = with_bucket <$> rows df
      ∧ (tenure_perf en).*1 = observed labels c_bucket (rows df')
      ∧ ∀ l m, (l, m) ∈ tenure_perf en →
               l ∈ labels
               ∧ m = mean (numof c_total
                             <$> select (λ r, cell_is l (cellof c_bucket r))
                                        (rows df')).
Proof.
  intros Hcols0. pose proof (has_all_cols _ _ Hcols0) as Hcols. split; [|split; [|split; [|split]]]; try done.
  - intros x i. apply (cut_index_spec x bins 0 i bins_sorted).
  - rewrite (tab8_ok df Hcols).
    eexists _, _. split; [reflexivity|]. cbn [rows tenure_perf].
    split; [done|]. split.
    + apply agg_groupby_cat_keys.
    + intros l m. apply elem_of_agg_groupby_cat.
Qed.

Lemma tenure_bucketing_witness :
  ∃ df' en,
    tab8 tenures = Ok (df', en)
    ∧ rows df' = with_bucket <$> rows tenures
    ∧ (tenure_perf en).*1 = observed labels c_bucket (rows df')
    ∧ ∀ l m, (l, m) ∈ tenure_perf en →
             l ∈ labels
             ∧ m = mean (numof c_total
                           <$> select (λ r, cell_is l (cellof c_bucket r))
                                      (rows df')).
Proof. apply (tenure_bucketing tenures). reflexivity. Defined.

(** ** Rows without a tenure bucket *)

Lemma select_with_bucket (l : string) (rs : list row) :
  select (λ r, cell_is l (cellof c_bucket r)) (with_bucket <$> rs)
  = with_bucket
      <$> select (λ r, cell_is l (cut bins labels (numof c_tenure r))) rs.
Proof.
  unfold select. rewrite filter_fmap. f_equal.
  apply filter_ext_in_bool. intros r _. unfold with_bucket.
  rewrite cellof_insert. by case_decide.
Qed.

Lemma cell_is_null (l : string) : cell_is l Null = false.
Proof. done. Qed.

Section Bucketless.

Context (parse : string → option float).

(** C9.  A row whose tenure is at most 0 gets no bucket and belongs to no
    group of the tenure aggregation, which is the same as on the table
    without these rows; a tenure cell that is empty or does not parse is
    0.0 after normalisation and so is such a row. *)
Theorem nonpositive_tenure_excluded (df : DataFrame) :
  forallb (λ c, has_col c df) tab8_cols = true →
  (∀ c, is_nan (to_numeric parse c) = true →
        coerce parse c = Num zero ∧ (zero <=? zero)%F = true)
  ∧ ∃ df' en,
      tab8 df = Ok (df', en)
      ∧ rows df' = with_bucket <$> rows df
      ∧ (∀ r, r ∈ rows df' → (numof c_tenure r <=? zero)%F = true →
              cellof c_bucket r = Null
              ∧ ∀ l g, (l, g) ∈ groupby_cat labels c_bucket (rows df') →
                       r ∉ g)
      ∧ ∃ df'' en',
          tab8 (keep_rows (λ r, negb (numof c_tenure r <=? zero)%F) df)
          = Ok (df'', en')
          ∧ tenure_perf en' = tenure_perf en.
Proof.
  intros Hcols0. pose proof (has_all_cols _ _ Hcols0) as Hcols. split.
  { intros c Hc. unfold coerce, fillna. by rewrite Hc. }
  rewrite (tab8_ok df Hcols).
  eexists _, _. split; [reflexivity|]. cbn [rows tenure_perf].
    split; [done|]. split.
  - intros r Hr Hle.
    apply list_elem_of_fmap in Hr as (r0 & -> & Hr0).
    assert (numof c_tenure (with_bucket r0) = numof c_tenure r0) as Ht
      by (apply numof_insert_ne, c_bucket_ne_tenure).
    rewrite Ht in Hle.
    assert (cellof c_bucket (with_bucket r0) = Null) as Hnull.
    { unfold with_bucket. rewrite cellof_insert. case_decide; [|done].
      by apply cut_nonpositive. }
    split; [done|]. intros l g ->%elem_of_groupby_cat.
    intros [_ Hin]%elem_of_filter_bool.
    by rewrite Hnull in Hin.
  - set (p := λ r : row, negb (numof c_tenure r <=? zero)%F).
    rewrite (tab8_ok (keep_rows p df)) by (intros c Hc; by apply Hcols).
    eexists _, _. split; [reflexivity|]. cbn [rows tenure_perf keep_rows].
    unfold agg. f_equal. unfold groupby_cat.
    apply List.flat_map_ext. intros l.
    rewrite !select_with_bucket. unfold select.
    rewrite filter_filter_and.
    assert (List.filter
              (λ x, p x && cell_is l (cut bins labels (numof c_tenure x)))
              (rows df)
            = List.filter
                (λ r, cell_is l (cut bins labels (numof c_tenure r)))
                (rows df)) as ->; [|done].
    apply filter_ext_in_bool. intros r _. unfold p.
    destruct (numof c_tenure r <=? zero)%F eqn:E; [|done].
    by rewrite (cut_nonpositive _ E).
Qed.

End Bucketless.

Lemma nonpositive_tenure_excluded_witness :
  (∀ c, is_nan (to_numeric parse_decimal c) = true →
        coerce parse_decimal c = Num zero ∧ (zero <=? zero)%F = true)
  ∧ ∃ df' en,
      tab8 (normalize parse_decimal tenures) = Ok (df', en)
      ∧ rows df' = with_bucket <$> rows (normalize parse_decimal tenures)
      ∧ (∀ r, r ∈ rows df' → (numof c_tenure r <=? zero)%F = true →
              cellof c_bucket r = Null
              ∧ ∀ l g, (l, g) ∈ groupby_cat labels c_bucket (rows df') →
                       r ∉ g)
      ∧ ∃ df'' en',
          tab8 (keep_rows (λ r, negb (numof c_tenure r <=? zero)%F)
                          (normalize parse_decimal tenures))
          = Ok (df'', en')
          ∧ tenure_perf en' = tenure_perf en.
Proof.
  apply (nonpositive_tenure_excluded parse_decimal
           (normalize parse_decimal tenures)).
  reflexivity.
Defined.

(** On the sample, only the rows with tenure 2.0 and 2.01 are in a bucket;
    the rows with tenure 0, an unparseable or empty tenure cell, and a
    tenure above 100 are in none. *)
Example tenure_sample :
  ∃ df' en,
    tab8 (normalize parse_decimal tenures) = Ok (df', en)
    ∧ cellof c_bucket <$> rows df'
      = [Str "1-2년(신입)"; Str "3-5년(주니어)"; Null; Null; Null; Null]
    ∧ (tenure_perf en).*1 = ["1-2년(신입)"; "3-5년(주니어)"]
    ∧ (tenure_perf en).*2 = [of_Z 88; of_Z 64].
Proof.
  destruct (result_check (tab8 (normalize parse_decimal tenures))
              (λ de, bool_decide
                       (cellof c_bucket <$> rows de.1
                        = [Str "1-2년(신입)"; Str "3-5년(주니어)";
                           Null; Null; Null; Null])
                     && bool_decide ((tenure_perf de.2).*1
                                     = ["1-2년(신입)"; "3-5년(주니어)"])
                     && floats_eqb (tenure_perf de.2).*2 [of_Z 88; of_Z 64]))
    as ([df' en] & Ho & Hp); [vm_compute; reflexivity|].
  apply andb_true_iff in Hp as [[H1 H2]%andb_true_iff H3].
  exists df', en. split; [done|].
  split; [by apply bool_decide_eq_true in H1|].
  split; [by apply bool_decide_eq_true in H2|]. by apply floats_eqb_eq.
Qed.

(** ** Rank- and grade-ordered aggregations (tab1, tab4) *)

Lemma cell_is_categorical (cats : list string) (k : string) (c : cell) :
  k ∈ cats → cell_is k (categorical cats c) = cell_is k c.
Proof.
  intros Hk. destruct c as [x|s|]; simpl; try done.
  case_bool_decide as Hs; [done|]. simpl.
  symmetry. apply bool_decide_eq_false. by intros ->.
Qed.


Lemma set_categories_rows (df : DataFrame) :
  set_categories df
  = mkDF (columns df) (with_categories (λ c, has_col c df) <$> rows df).
Proof.
  unfold set_categories, with_categories, map_col.
  destruct (has_col c_rank df) eqn:Er.
  - rewrite has_col_assign_ne by done.
    destruct (has_col c_grade df) eqn:Eg.
    + unfold assign at 1. rewrite has_col_assign_ne, Eg by done.
      unfold assign. simpl. rewrite Er. f_equal.
      by rewrite <- list_fmap_compose.
    + unfold assign. by rewrite Er.
  - destruct (has_col c_grade df) eqn:Eg.
    + unfold assign. by rewrite Eg.
    + rewrite list_fmap_id. by destruct df.
Qed.

Lemma has_col_set_categories (c : string) (df : DataFrame) :
  has_col c (set_categories df) = has_col c df.
Proof. by rewrite set_categories_rows. Qed.

Lemma cellof_rank_categories (pres : string → bool) (r : row) :
  pres c_rank = true →
  cellof c_rank (with_categories pres r)
  = categorical rank_order (cellof c_rank r).
Proof.
  intros H. unfold with_categories. rewrite H.
  destruct (pres c_grade); rewrite !cellof_insert; repeat case_decide; done.
Qed.

Lemma cellof_grade_categories (pres : string → bool) (r : row) :
  pres c_grade = true →
  cellof c_grade (with_categories pres r)
  = categorical grade_order (cellof c_grade r).
Proof.
  intros H. unfold with_categories. rewrite H.
  destruct (pres c_rank); rewrite !cellof_insert; repeat case_decide; done.
Qed.

Lemma numof_total_categories (pres : string → bool) (r : row) :
  numof c_total (with_categories pres r) = numof c_total r.
Proof.
  unfold with_categories, numof.
  destruct (pres c_rank), (pres c_grade);
    rewrite ?cellof_insert; repeat case_decide; done.
Qed.


Lemma flat_map_ext_in {A B} (f g : A → list B) (l : list A) :
  (∀ a, a ∈ l → f a = g a) → flat_map f l = flat_map g l.
Proof.
  induction l as [|a l IH]; simpl; intros H; [done|].
  rewrite (H a) by apply list_elem_of_here.
  f_equal. apply IH. intros b Hb. apply H. by apply list_elem_of_further.
Qed.

(** Grouping the converted rank column groups the rows by their rank as
    uploaded, over the ranks of the enumeration. *)
Lemma rank_groups_raw (pres : string → bool) (rs : list row) (k : string) :
  pres c_rank = true → k ∈ rank_order →
  select (λ r, cell_is k (cellof c_rank r)) (with_categories pres <$> rs)
  = with_categories pres <$> select (λ r, cell_is k (cellof c_rank r)) rs.
Proof.
  intros Hp Hk. unfold select. rewrite filter_fmap. f_equal.
  apply filter_ext_in_bool. intros r _.
  by rewrite cellof_rank_categories, cell_is_categorical.
Qed.

Lemma grade_groups_raw (pres : string → bool) (rs : list row) (k : string) :
  pres c_grade = true → k ∈ grade_order →
  select (λ r, cell_is k (cellof c_grade r)) (with_categories pres <$> rs)
  = with_categories pres <$> select (λ r, cell_is k (cellof c_grade r)) rs.
Proof.
  intros Hp Hk. unfold select. rewrite filter_fmap. f_equal.
  apply filter_ext_in_bool. intros r _.
  by rewrite cellof_grade_categories, cell_is_categorical.
Qed.

Lemma numof_total_categories_col (pres : string → bool) (g : list row) :
  numof c_total <$> (with_categories pres <$> g) = numof c_total <$> g.
Proof.
  rewrite <- list_fmap_compose. apply list_fmap_ext.
  intros i x _. apply numof_total_categories.
Qed.

Lemma tab1_raw (df : DataFrame) :
  has_col c_rank df = true → has_col c_total df = true →
  tab1 (set_categories df)
  = Ok (Some (agg group_mean_total
                  (groupby_cat rank_order c_rank (rows df)))).
Proof.
  intros Hr Ht. unfold tab1.
  rewrite has_col_set_categories, Hr, require_ok, bind_ok.
  2:{ intros c Hc. rewrite has_col_set_categories.
      apply elem_of_cons in Hc as [->|Hc]; [done|].
      by apply list_elem_of_singleton in Hc as ->. }
  do 2 f_equal. rewrite set_categories_rows. cbn [rows].
  rewrite !agg_groupby_cat. apply flat_map_ext_in. intros k Hk.
  rewrite rank_groups_raw by done.
  destruct (select _ (rows df)) as [|r g]; [done|].
  rewrite fmap_cons. cbv beta iota. rewrite <- fmap_cons.
  by rewrite numof_total_categories_col.
Qed.

Lemma tab4_raw (df : DataFrame) :
  has_col c_grade df = true →
  tab4 (set_categories df)
  = Ok (Some (value_counts_cat grade_order c_grade (rows df))).
Proof.
  intros Hg. unfold tab4. rewrite has_col_set_categories, Hg.
  do 2 f_equal. rewrite set_categories_rows. cbn [rows].
  unfold value_counts_cat. apply list_fmap_ext. intros i k Hk.
  apply list_elem_of_lookup_2 in Hk.
  by rewrite grade_groups_raw, length_fmap.
Qed.





(** On the sample the ranks come out as 부장, 과장, 사원 although the rows
    are not in this order, and the rows with rank 인턴 and with no rank are
    in no group. *)
Example ranks_sample :
  ∃ ra gc,
    tab1 (set_categories (normalize parse_decimal ranks)) = Ok (Some ra)
    ∧ tab4 (set_categories (normalize parse_decimal ranks)) = Ok (Some gc)
    ∧ ra.*1 = ["부장"; "과장"; "사원"]
    ∧ ra.*2 = [of_Z 88; of_Z 75; 5 #f 2]
    ∧ gc = [("S", 1); ("A", 1); ("B", 1); ("C", 1); ("D", 1)].
Proof.
  assert (has_col c_rank (normalize parse_decimal ranks) = true) as Hr
    by reflexivity.
  assert (has_col c_grade (normalize parse_decimal ranks) = true) as Hg
    by reflexivity.
  assert (has_col c_total (normalize parse_decimal ranks) = true) as Ht
    by reflexivity.
  rewrite tab1_raw, tab4_raw by done.
  eexists _, _. split; [reflexivity|]. split; [reflexivity|].
  split; [vm_compute; reflexivity|].
  split; [|vm_compute; reflexivity].
  apply floats_eqb_eq. vm_compute. reflexivity.
Qed.

(** ** Grouping on a plain column *)

Lemma elem_of_group_keys (key : string) (rs : list row) (k : cell) :
  k ∈ group_keys key rs
  ↔ isnull k = false ∧ ∃ r, r ∈ rs ∧ cellof key r = k.
Proof.
  unfold group_keys.
  rewrite elem_of_sort_by, elem_of_remove_dups, elem_of_filter_bool.
  rewrite list_elem_of_fmap, negb_true_iff. split.
  - intros [(r & -> & Hr) Hn]. eauto.
  - intros [Hn (r & Hr & <-)]. eauto.
Qed.

Lemma NoDup_group_keys (key : string) (rs : list row) :
  NoDup (group_keys key rs).
Proof. unfold group_keys. rewrite sort_by_perm. apply NoDup_remove_dups. Qed.

Lemma agg_groupby {V} (f : list row → V) (key : string) (rs : list row) :
  agg f (groupby key rs)
  = (λ k, (k, f (select (λ r, bool_decide (cellof key r = k)) rs)))
      <$> group_keys key rs.
Proof. unfold agg, groupby. by rewrite <- list_fmap_compose. Qed.

Lemma agg_groupby_keys {V} (f : list row → V) (key : string) (rs : list row) :
  (agg f (groupby key rs)).*1 = group_keys key rs.
Proof.
  rewrite agg_groupby, <- list_fmap_compose. apply list_fmap_id.
Qed.

Lemma fmap_fst_pair {K V} (G : K → V) (ks : list K) :
  ((λ k, (k, G k)) <$> ks).*1 = ks.
Proof. rewrite <- list_fmap_compose. apply list_fmap_id. Qed.

Lemma lookup_key_fmap {V} (F : cell → V) (ks : list cell) (k : cell) :
  lookup_key k ((λ k, (k, F k)) <$> ks)
  = if decide (k ∈ ks) then Some (F k) else None.
Proof.
  unfold lookup_key. induction ks as [|k' ks IH]; csimpl.
  - done.
  - case_bool_decide as E; simpl in E.
    + subst. by rewrite decide_True by apply list_elem_of_here.
    + rewrite IH. destruct (decide (k ∈ ks)) as [Hin|Hin].
      * by rewrite decide_True by by apply list_elem_of_further.
      * rewrite decide_False; [done|].
        intros [->|?]%elem_of_cons; done.
Qed.

Lemma group_keys_select (key : string) (p : row → bool) (rs : list row)
    (k : cell) :
  k ∈ group_keys key (select p rs) → k ∈ group_keys key rs.
Proof.
  rewrite !elem_of_group_keys. intros (Hn & r & Hr & Hk).
  apply elem_of_filter_bool in Hr as [Hr _]. eauto.
Qed.

Lemma select_nil_not_key (key : string) (rs : list row) (k : cell) :
  isnull k = false → k ∉ group_keys key rs →
  select (λ r, bool_decide (cellof key r = k)) rs = [].
Proof.
  intros Hn Hk. apply filter_none. intros r Hr.
  apply bool_decide_eq_false. intros Heq. apply Hk.
  apply elem_of_group_keys. eauto.
Qed.

Lemma select_key_nonempty (key : string) (rs : list row) (k : cell) :
  k ∈ group_keys key rs →
  0 < length (select (λ r, bool_decide (cellof key r = k)) rs).
Proof.
  intros (_ & r & Hr & Hk)%elem_of_group_keys.
  assert (r ∈ select (λ r, bool_decide (cellof key r = k)) rs) as Hin.
  { apply elem_of_filter_bool. split; [done|]. by apply bool_decide_eq_true. }
  destruct (select _ rs); [by apply elem_of_nil in Hin|simpl; lia].
Qed.

(** ** Talent density (tab8) *)

Lemma Qred_inject_Z (z : Z) : Qred (inject_Z z) = inject_Z z.
Proof.
  apply Qred_identity. simpl. apply Z.gcd_1_r.
Qed.

Lemma sgn_of_nat_pos (n : nat) :
  0 < n → sgn (Q2Qc (inject_Z (Z.of_nat n))) = Gt.
Proof.
  intros Hn. unfold sgn. simpl. rewrite Qred_inject_Z. simpl.
  apply Z.compare_gt_iff. lia.
Qed.

(** The percentage of a non-empty department is a finite number. *)
Lemma pct_finite (a b : nat) :
  0 < b → is_finite (of_nat a / of_nat b * of_Z 100)%F = true.
Proof.
  intros Hb. unfold of_nat, of_Z, of_Q. simpl.
  by rewrite (sgn_of_nat_pos b Hb).
Qed.

Lemma pct_zero (b : nat) :
  0 < b → (of_nat 0 / of_nat b * of_Z 100)%F = zero.
Proof.
  intros Hb. unfold of_nat, of_Z, of_Q, zero, of_Z, of_Q. simpl.
  rewrite (sgn_of_nat_pos b Hb). f_equal.
Qed.

Lemma fillna_finite (v x : float) : is_finite x = true → fillna v x = x.
Proof. by destruct x. Qed.

Lemma fillna_not_nan (x : float) : is_nan (fillna zero x) = false.
Proof. by destruct x. Qed.

(** The quotient of two count series, one over the rows that satisfy [p]
    and one over all rows, at a department that occurs. *)
Lemma align_div_counts (p : row → bool) (rs : list row) (d : cell) :
  d ∈ group_keys c_dept rs →
  (d, if decide (d ∈ group_keys c_dept (select p rs))
      then (of_nat (length (dept_rows d (select p rs)))
            / of_nat (length (dept_rows d rs)))%F
      else NaN)
  ∈ align_div (dept_counts (select p rs)) (dept_counts rs).
Proof.
  intros Hd. unfold align_div, dept_counts.
  rewrite !agg_groupby_keys, !agg_groupby.
  apply list_elem_of_fmap. exists d. split.
  - rewrite !(lookup_key_fmap (λ k, length (select _ _))).
    rewrite (decide_True _ _ Hd). by case_decide.
  - rewrite elem_of_sort_by, elem_of_remove_dups, elem_of_app. by right.
Qed.

Lemma align_div_keys (p : row → bool) (rs : list row) :
  (align_div (dept_counts (select p rs)) (dept_counts rs)).*1
  ≡ₚ group_keys c_dept rs.
Proof.
  unfold align_div, dept_counts. rewrite !agg_groupby_keys.
  rewrite fmap_fst_pair, sort_by_perm. apply NoDup_Permutation.
  - apply NoDup_remove_dups.
  - apply NoDup_group_keys.
  - intros k. rewrite elem_of_remove_dups, elem_of_app.
    split; [|by right]. intros [H|H]; [|done]. by eapply group_keys_select.
Qed.

Lemma talent_density_keys (rs : list row) :
  (talent_density_of rs).*1 ≡ₚ group_keys c_dept rs.
Proof.
  unfold talent_density_of. rewrite sort_values_perm.
  rewrite <- list_fmap_compose.
  rewrite <- (align_div_keys (λ r, is_star_grade (cellof c_grade r)) rs).
  done.
Qed.

Lemma talent_density_entry (rs : list row) (d : cell) :
  d ∈ group_keys c_dept rs →
  (d, (of_nat (length (dept_star_rows d rs))
       / of_nat (length (dept_rows d rs)) * of_Z 100)%F)
  ∈ talent_density_of rs.
Proof.
  intros Hd. unfold talent_density_of. rewrite sort_values_perm.
  apply list_elem_of_fmap.
  eexists. split; [|by apply align_div_counts].
  pose proof (select_key_nonempty _ _ _ Hd) as Hpos.
  cbn [fst snd]. f_equal. unfold dept_star_rows, dept_rows.
  case_decide as Hs.
  - by rewrite fillna_finite by by apply pct_finite.
  - apply elem_of_group_keys in Hd as [Hn _].
    rewrite (select_nil_not_key _ _ _ Hn Hs). cbn [length].
    by rewrite pct_zero.
Qed.

(** C8.  Every department that occurs in the table has exactly one entry
    in the talent density, with the percentage (rows of the department
    with grade S or A) / (rows of the department) * 100; without such rows
    the entry is 0; the entries are in descending order and none is NaN. *)
Theorem talent_density_percentages (df : DataFrame) :
  forallb (λ c, has_col c df) tab8_cols = true →
  ∃ df' en,
    tab8 df = Ok (df', en)
    ∧ NoDup (talent_density en).*1
    ∧ (∀ d, d ∈ (talent_density en).*1
            ↔ isnull d = false ∧ ∃ r, r ∈ rows df ∧ cellof c_dept r = d)
    ∧ (∀ d r, isnull d = false → r ∈ rows df → cellof c_dept r = d →
              (d, (of_nat (length (dept_star_rows d (rows df)))
                   / of_nat (length (dept_rows d (rows df))) * of_Z 100)%F)
              ∈ talent_density en
              ∧ (dept_star_rows d (rows df) = [] →
                 (d, zero) ∈ talent_density en))
    ∧ Sorted (λ a b, (b.2 <=? a.2)%F = true) (talent_density en)
    ∧ ∀ kv, kv ∈ talent_density en → is_nan kv.2 = false.
Proof.
  intros Hcols0. pose proof (has_all_cols _ _ Hcols0) as Hcols.
  rewrite (tab8_ok df Hcols). eexists _, _. split; [reflexivity|].
  cbn [talent_density].
  assert (∀ kv, kv ∈ talent_density_of (rows df) → is_nan kv.2 = false)
    as Hnn.
  { intros kv. unfold talent_density_of. rewrite sort_values_perm.
    intros (kv' & -> & _)%list_elem_of_fmap. apply fillna_not_nan. }
  split; [|split; [|split; [|split]]]; try done.
  - rewrite talent_density_keys. apply NoDup_group_keys.
  - intros d. rewrite talent_density_keys. apply elem_of_group_keys.
  - intros d r Hn Hr Hd.
    assert (d ∈ group_keys c_dept (rows df)) as Hk
      by (apply elem_of_group_keys; eauto).
    split; [by apply talent_density_entry|].
    intros Hnil. pose proof (talent_density_entry _ _ Hk) as He.
    rewrite Hnil in He. cbn [length] in He.
    by rewrite pct_zero in He by by apply select_key_nonempty.
  - unfold talent_density_of.
    apply (sort_values_sorted_no_nan snd false).
    intros kv (kv' & -> & _)%list_elem_of_fmap. apply fillna_not_nan.
Qed.

Lemma talent_density_percentages_witness :
  ∃ df' en,
    tab8 depts = Ok (df', en)
    ∧ NoDup (talent_density en).*1
    ∧ (∀ d, d ∈ (talent_density en).*1
            ↔ isnull d = false ∧ ∃ r, r ∈ rows depts ∧ cellof c_dept r = d)
    ∧ (∀ d r, isnull d = false → r ∈ rows depts → cellof c_dept r = d →
              (d, (of_nat (length (dept_star_rows d (rows depts)))
                   / of_nat (length (dept_rows d (rows depts)))
                   * of_Z 100)%F)
              ∈ talent_density en
              ∧ (dept_star_rows d (rows depts) = [] →
                 (d, zero) ∈ talent_density en))
    ∧ Sorted (λ a b, (b.2 <=? a.2)%F = true) (talent_density en)
    ∧ ∀ kv, kv ∈ talent_density en → is_nan kv.2 = false.
Proof. apply (talent_density_percentages depts). reflexivity. Defined.

(** On the sample: two of three rows of 영업 have grade S or A, none of
    the two rows of 개발; the row without department counts nowhere. *)
Example talent_density_sample :
  (talent_density_of (rows depts)).*1 = [Str "영업"; Str "개발"]
  ∧ (talent_density_of (rows depts)).*2 = [200 #f 3; zero].
Proof.
  split; [vm_compute; reflexivity|].
  apply floats_eqb_eq. vm_compute. reflexivity.
Qed.

(** ** Department dispersion (tab7) *)

Section Dispersion.

Context (sqrt_q : Qc → Qc).

Lemma tab7_ok (df : DataFrame) :
  (∀ c, c ∈ tab7_cols → has_col c df = true) →
  ∃ df' pr wd,
    tab7 sqrt_q df
    = Ok (df', {| potential_risk := pr; warning_drop := wd;
                  dept_std := dept_std_of sqrt_q (rows df') |})
    ∧ (has_col c_prev df = false → df' = df ∧ wd = None)
    ∧ (rows df' = rows df ∨ rows df' = with_diff <$> rows df)
    ∧ ∀ c, has_col c df = true → has_col c df' = true.
Proof.
  intros H. unfold tab7, tab7_cols in *.
  rewrite !getnum_ok, !bind_ok by (apply H; set_unfold; tauto).
  destruct (has_col c_prev df) eqn:Ep.
  - rewrite require_ok.
    2:{ intros c [->|[->|Hc]%elem_of_cons]%elem_of_cons.
        - apply H. set_unfold; tauto.
        - done.
        - by apply elem_of_nil in Hc. }
    rewrite !bind_ok. cbn [mbind result_bind].
    rewrite require_ok.
    2:{ intros c Hc. apply has_col_assign_keep, H.
        revert Hc. set_unfold. tauto. }
    rewrite bind_ok. eexists _, _, _. split; [reflexivity|].
    split; [done|]. split; [by right|].
    intros c Hc. by apply has_col_assign_keep.
  - cbn [mbind result_bind]. rewrite require_ok.
    2:{ intros c Hc. apply H. revert Hc. set_unfold. tauto. }
    rewrite bind_ok. eexists _, _, _. split; [reflexivity|].
    split; [done|]. split; [by left|done].
Qed.

Lemma c_diff_ne_dept : c_diff ≠ c_dept.
Proof. done. Qed.

Lemma c_diff_ne_total : c_diff ≠ c_total.
Proof. done. Qed.

Lemma cellof_dept_with_diff (r : row) :
  cellof c_dept (with_diff r) = cellof c_dept r.
Proof. unfold with_diff. rewrite cellof_insert. by case_decide. Qed.

Lemma group_keys_with_diff (rs : list row) :
  group_keys c_dept (with_diff <$> rs) = group_keys c_dept rs.
Proof.
  unfold group_keys. do 3 f_equal. rewrite <- list_fmap_compose.
  apply list_fmap_ext. intros i r _. apply cellof_dept_with_diff.
Qed.

Lemma dept_std_with_diff (rs : list row) :
  dept_std_of sqrt_q (with_diff <$> rs) = dept_std_of sqrt_q rs.
Proof.
  unfold dept_std_of. f_equal. rewrite !agg_groupby, group_keys_with_diff.
  apply list_fmap_ext. intros i d _. do 2 f_equal.
  unfold select. rewrite filter_fmap, <- list_fmap_compose.
  rewrite (filter_ext_in_bool _ (λ r, bool_decide (cellof c_dept r = d))).
  - apply list_fmap_ext. intros j r _. apply numof_insert_ne, c_diff_ne_total.
  - intros r _. by rewrite cellof_dept_with_diff.
Qed.

Lemma std_single (x : float) : std sqrt_q [x] = NaN.
Proof. unfold std, var, dropna. simpl. by destruct (is_nan x). Qed.

(** Two or more values: the squared deviations from the mean over n-1. *)
Lemma var_sample (xs : list float) :
  2 ≤ length xs →
  (∀ x, x ∈ xs → is_nan x = false) →
  var xs
  = (sq_dev (Float.sum xs / of_nat (length xs)) xs
     / of_nat (length xs - 1))%F.
Proof.
  intros Hlen Hnn. unfold var. rewrite dropna_no_nan by done.
  destruct (length xs <=? 1) eqn:E; [|done].
  apply Nat.leb_le in E. lia.
Qed.

Lemma dept_std_entry (rs : list row) (d : cell) :
  d ∈ group_keys c_dept rs →
  (d, std sqrt_q (numof c_total <$> dept_rows d rs)) ∈ dept_std_of sqrt_q rs.
Proof.
  intros Hd. unfold dept_std_of. rewrite sort_values_perm, agg_groupby.
  apply list_elem_of_fmap. by exists d.
Qed.

(** C10.  The dispersion of a department is the sample standard deviation
    of its total scores (squared deviations over n-1); a department of one
    row has dispersion NaN; in the descending list the NaN entries come
    last. *)
Theorem dept_dispersion (df : DataFrame) :
  forallb (λ c, has_col c df) tab7_cols = true →
  ∃ df' rk,
    tab7 sqrt_q df = Ok (df', rk)
    ∧ (∀ d, d ∈ group_keys c_dept (rows df) →
            (d, std sqrt_q (numof c_total <$> dept_rows d (rows df)))
            ∈ dept_std rk)
    ∧ (∀ xs, 2 ≤ length xs → (∀ x, x ∈ xs → is_nan x = false) →
             std sqrt_q xs
             = fsqrt sqrt_q
                 (sq_dev (Float.sum xs / of_nat (length xs)) xs
                  / of_nat (length xs - 1))%F)
    ∧ (∀ d r, isnull d = false → dept_rows d (rows df) = [r] →
              (d, NaN) ∈ dept_std rk)
    ∧ ∃ s n, dept_std rk = s ++ n
             ∧ Sorted (λ a b, (b.2 <=? a.2)%F = true) s
             ∧ (∀ kv, kv ∈ s → is_nan kv.2 = false)
             ∧ (∀ kv, kv ∈ n → is_nan kv.2 = true).
Proof.
  intros Hcols0. pose proof (has_all_cols _ _ Hcols0) as Hcols.
  destruct (tab7_ok df Hcols) as (df' & pr & wd & -> & _ & Hrows & _).
  eexists _, _. split; [reflexivity|]. cbn [dept_std].
  assert (dept_std_of sqrt_q (rows df') = dept_std_of sqrt_q (rows df)) as ->.
  { destruct Hrows as [->| ->]; [done|apply dept_std_with_diff]. }
  split; [|split; [|split]].
  - intros d. apply dept_std_entry.
  - intros xs Hlen Hnn. unfold std. by rewrite var_sample.
  - intros d r Hn Hr.
    assert (d ∈ group_keys c_dept (rows df)) as Hd.
    { apply elem_of_group_keys. split; [done|]. exists r.
      assert (r ∈ dept_rows d (rows df)) as Hin
        by (rewrite Hr; apply list_elem_of_here).
      apply elem_of_filter_bool in Hin as [? Heq].
      by apply bool_decide_eq_true in Heq. }
    pose proof (dept_std_entry _ _ Hd) as He.
    rewrite Hr in He.
    change (numof c_total <$> [r]) with [numof c_total r] in He.
    by rewrite std_single in He.
  - apply (sort_values_sorted snd false).
Qed.

End Dispersion.

Lemma dept_dispersion_witness :
  ∃ df' rk,
    tab7 sqrt_12 spread = Ok (df', rk)
    ∧ (∀ d, d ∈ group_keys c_dept (rows spread) →
            (d, std sqrt_12 (numof c_total <$> dept_rows d (rows spread)))
            ∈ dept_std rk)
    ∧ (∀ xs, 2 ≤ length xs → (∀ x, x ∈ xs → is_nan x = false) →
             std sqrt_12 xs
             = fsqrt sqrt_12
                 (sq_dev (Float.sum xs / of_nat (length xs)) xs
                  / of_nat (length xs - 1))%F)
    ∧ (∀ d r, isnull d = false → dept_rows d (rows spread) = [r] →
              (d, NaN) ∈ dept_std rk)
    ∧ ∃ s n, dept_std rk = s ++ n
             ∧ Sorted (λ a b, (b.2 <=? a.2)%F = true) s
             ∧ (∀ kv, kv ∈ s → is_nan kv.2 = false)
             ∧ (∀ kv, kv ∈ n → is_nan kv.2 = true).
Proof. apply (dept_dispersion sqrt_12 spread). reflexivity. Defined.

(** On the sample: 영업 (70, 80, 90) has variance 100 and dispersion 10,
    개발 (60, 62) has variance 2, and 기획 with its single row comes last
    with NaN. *)
Example dept_dispersion_sample :
  (dept_std_of sqrt_12 (rows spread)).*1 = [Str "영업"; Str "개발"; Str "기획"]
  ∧ (dept_std_of sqrt_12 (rows spread)).*2
    = [of_Z 10; 1414213562373 #f 1000000000000; NaN]
  ∧ var (of_Z <$> [70; 80; 90]%Z) = of_Z 100.
Proof.
  split; [vm_compute; reflexivity|].
  split; apply eqb_eq || apply floats_eqb_eq; vm_compute; reflexivity.
Qed.

(** ** Missing columns (whole run) *)

Section Run.

Context (parse : string → option float) (sqrt_q : Qc → Qc).

Lemma dashboard_ok (df : DataFrame) :
  has_col c_total df = true → has_col c_tenure df = true →
  ∃ s, dashboard df = Ok s
       ∧ (has_col c_prev df = false → growth_avg s = None).
Proof.
  intros Ht Hn. unfold dashboard. rewrite !getnum_ok, !bind_ok by done.
  destruct (has_col c_prev df) eqn:Ep.
  - rewrite require_ok.
    2:{ intros c [->|[->|Hc]%elem_of_cons]%elem_of_cons; try done.
        by apply elem_of_nil in Hc. }
    rewrite !bind_ok. eexists. split; [reflexivity|done].
  - rewrite !bind_ok. eexists. split; [reflexivity|done].
Qed.

Lemma dashboard_no_tenure (df : DataFrame) :
  has_col c_total df = true → has_col c_tenure df = false →
  dashboard df = KeyError c_tenure.
Proof.
  intros Ht Hn. unfold dashboard. rewrite (getnum_ok c_total), bind_ok by done.
  rewrite (getnum_err c_tenure) by done.
  destruct (has_col c_prev df) eqn:Ep; [|done].
  rewrite require_ok; [done|].
  intros c [->|[->|Hc]%elem_of_cons]%elem_of_cons; try done.
  by apply elem_of_nil in Hc.
Qed.

Lemma tab1_ok (df : DataFrame) :
  has_col c_total df = true → ∃ ra, tab1 df = Ok ra.
Proof.
  intros Ht. unfold tab1. destruct (has_col c_rank df) eqn:Er; [|by eexists].
  rewrite require_ok.
  - rewrite bind_ok. by eexists.
  - intros c [->|[->|Hc]%elem_of_cons]%elem_of_cons; try done.
    by apply elem_of_nil in Hc.
Qed.



Lemma tab4_ok (df : DataFrame) : ∃ gc, tab4 df = Ok gc.
Proof. unfold tab4. destruct (has_col c_grade df); by eexists. Qed.

Lemma has_col_run (df0 : DataFrame) (c : string) :
  has_col c (set_categories (normalize parse df0)) = has_col c df0.
Proof. by rewrite has_col_set_categories, has_col_normalize. Qed.


End Run.



(** Likewise without the grade column, which tab8 reads unguarded. *)
Example missing_grade_stops :
  pipeline parse_decimal sqrt_12 (drop_col c_grade upload) = KeyError c_grade.
Proof. vm_compute. reflexivity. Qed.

(** * Further properties of the script *)

(** ** Normalisation and category conversion as a whole *)

Section NormalizeMore.

Context (parse : string → option float).

Lemma norm_row_cons (pres : string → bool) (c : string) (cs : list string)
    (r : row) :
  norm_row parse pres (c :: cs) r
  = norm_row parse pres cs
      (if pres c then <[c := coerce parse (cellof c r)]> r else r).
Proof. reflexivity. Qed.

Lemma lookup_norm_row (pres : string → bool) (cs : list string)
    (k : string) (r : row) :
  NoDup cs →
  norm_row parse pres cs r !! k
  = if decide (k ∈ cs ∧ pres k = true)
    then Some (coerce parse (cellof k r)) else r !! k.
Proof.
  revert r. induction cs as [|c cs IH]; intros r Hnd.
  - cbn [norm_row foldl]. case_decide as H; [|done].
    destruct H as [H _]. by apply elem_of_nil in H.
  - apply NoDup_cons in Hnd as [Hc Hnd]. rewrite norm_row_cons, IH by done.
    destruct (decide (k = c)) as [->|Hne].
    + rewrite (decide_False (P := c ∈ cs ∧ _)) by tauto.
      destruct (pres c) eqn:Ep.
      * rewrite lookup_insert_eq.
        rewrite decide_True; [done|]. split; [apply list_elem_of_here|done].
      * rewrite decide_False; [done|]. intros [_ ?]. congruence.
    + assert ((if pres c then <[c:=coerce parse (cellof c r)]> r else r) !! k
              = r !! k) as Hk.
      { destruct (pres c); [|done]. by rewrite lookup_insert_ne. }
      assert (cellof k (if pres c then <[c:=coerce parse (cellof c r)]> r
                        else r) = cellof k r) as Hk'.
      { destruct (pres c); [|done]. rewrite cellof_insert.
        rewrite decide_False; [done|]. by intros ->. }
      rewrite Hk, Hk'. apply decide_ext. rewrite elem_of_cons. split.
      * intros [H1 H2]. split; [by right|done].
      * intros [[Heq|H1] H2]; done.
Qed.

Lemma coerce_idem (c : cell) : coerce parse (coerce parse c) = coerce parse c.
Proof.
  unfold coerce. simpl. f_equal. unfold fillna at 1.
  by destruct (to_numeric parse c).
Qed.

(** X1.  Lines 23-26 change neither the header nor the number of rows,
    and leave alone every cell of a column that is not a target column or
    is not in the header. *)
Theorem normalize_untouched (df : DataFrame) (c : string) :
  c ∉ target_cols ∨ has_col c df = false →
  columns (normalize parse df) = columns df
  ∧ length (rows (normalize parse df)) = length (rows df)
  ∧ ∀ i r, rows df !! i = Some r →
           ∃ r', rows (normalize parse df) !! i = Some r'
                 ∧ r' !! c = r !! c.
Proof.
  intros Hc. rewrite normalize_rows. cbn [columns rows].
  split; [done|]. split; [by rewrite length_fmap|].
  intros i r Hr. eexists. rewrite list_lookup_fmap, Hr. split; [done|].
  rewrite lookup_norm_row by apply target_cols_nodup.
  rewrite decide_False; [done|]. intros [? ?]. destruct Hc; [done|congruence].
Qed.

Lemma norm_row_idem (pres : string → bool) (r : row) :
  norm_row parse pres target_cols (norm_row parse pres target_cols r)
  = norm_row parse pres target_cols r.
Proof.
  apply map_eq. intros k.
  rewrite !lookup_norm_row by apply target_cols_nodup.
  case_decide as H; [|done]. unfold cellof at 1.
  rewrite lookup_norm_row by apply target_cols_nodup.
  rewrite decide_True by done. simpl. by rewrite coerce_idem.
Qed.

(** X2.  Normalising a normalised table changes nothing. *)
Theorem normalize_idempotent (df : DataFrame) :
  normalize parse (normalize parse df) = normalize parse df.
Proof.
  rewrite (normalize_rows parse (normalize parse df)).
  rewrite !normalize_rows. cbn [columns rows]. f_equal.
  rewrite <- list_fmap_compose. apply list_fmap_ext. intros i r _.
  exact (norm_row_idem (λ c, has_col c df) r).
Qed.

End NormalizeMore.

Lemma normalize_untouched_witness :
  columns (normalize parse_decimal odd_totals) = columns odd_totals
  ∧ length (rows (normalize parse_decimal odd_totals))
    = length (rows odd_totals)
  ∧ ∀ i r, rows odd_totals !! i = Some r →
           ∃ r', rows (normalize parse_decimal odd_totals) !! i = Some r'
                 ∧ r' !! c_rank = r !! c_rank.
Proof.
  apply (normalize_untouched parse_decimal odd_totals c_rank).
  left. unfold target_cols. rewrite !elem_of_cons, elem_of_nil.
  intros [H|[H|[H|[H|[H|[]]]]]]; discriminate H.
Defined.

(** ** Category conversion (lines 44-47) *)

Lemma categorical_idem (cats : list string) (c : cell) :
  categorical cats (categorical cats c) = categorical cats c.
Proof.
  destruct c as [x|s|]; simpl; try done.
  case_bool_decide as H; simpl; [|done]. by rewrite bool_decide_true.
Qed.

Lemma categorical_cases (cats : list string) (c : cell) :
  (∃ s, s ∈ cats ∧ c = Str s ∧ categorical cats c = Str s)
  ∨ (in_cats cats c = false ∧ categorical cats c = Null).
Proof.
  destruct c as [x|s|]; simpl; [by right| |by right].
  case_bool_decide as H; [left; eauto|by right].
Qed.

Lemma lookup_with_categories (pres : string → bool) (k : string) (r : row) :
  with_categories pres r !! k
  = if decide (k = c_grade ∧ pres c_grade = true)
    then Some (categorical grade_order (cellof c_grade r))
    else if decide (k = c_rank ∧ pres c_rank = true)
         then Some (categorical rank_order (cellof c_rank r))
         else r !! k.
Proof.
  unfold with_categories.
  destruct (decide (k = c_grade)) as [->|Hg];
    [|destruct (decide (k = c_rank)) as [->|Hr]].
  - destruct (pres c_grade) eqn:Eg.
    + rewrite lookup_insert_eq, decide_True by done. do 2 f_equal.
      destruct (pres c_rank); [|done].
      rewrite cellof_insert. by rewrite decide_False.
    + rewrite !decide_False by (by intros [? ?]).
      destruct (pres c_rank); [|done]. by rewrite lookup_insert_ne.
  - rewrite (decide_False (P := c_rank = c_grade ∧ _)) by (by intros [? ?]).
    destruct (pres c_grade) eqn:Eg; [rewrite lookup_insert_ne by done|];
      (destruct (pres c_rank) eqn:Er;
       [by rewrite lookup_insert_eq, decide_True
       |by rewrite decide_False by (by intros [? ?])]).
  - rewrite !decide_False by (by intros [? ?]).
    destruct (pres c_grade), (pres c_rank);
      by rewrite ?lookup_insert_ne by done.
Qed.

(** X3.  After lines 44-47 a rank cell is the uploaded rank where that is
    one of the five ranks, and empty otherwise; no row is dropped, and
    converting again changes nothing. *)
Theorem set_categories_rank (df : DataFrame) :
  has_col c_rank df = true →
  length (rows (set_categories df)) = length (rows df)
  ∧ (∀ i r, rows df !! i = Some r →
            ∃ r', rows (set_categories df) !! i = Some r'
                  ∧ ((∃ s, s ∈ rank_order ∧ cellof c_rank r = Str s
                           ∧ cellof c_rank r' = Str s)
                     ∨ (in_cats rank_order (cellof c_rank r) = false
                        ∧ cellof c_rank r' = Null)))
  ∧ set_categories (set_categories df) = set_categories df.
Proof.
  intros Hr. rewrite (set_categories_rows (set_categories df)).
  rewrite !set_categories_rows. cbn [columns rows].
  split; [by rewrite length_fmap|]. split.
  - intros i r Hi. eexists. rewrite list_lookup_fmap, Hi. split; [done|].
    rewrite cellof_rank_categories by done. apply categorical_cases.
  - f_equal. rewrite <- list_fmap_compose. apply list_fmap_ext.
    intros i r _.
    change (with_categories (λ c, has_col c df)
              (with_categories (λ c, has_col c df) r)
            = with_categories (λ c, has_col c df) r).
    apply map_eq. intros k. rewrite !lookup_with_categories.
    repeat case_decide; try done.
    + by rewrite cellof_grade_categories, categorical_idem by tauto.
    + by rewrite cellof_rank_categories, categorical_idem by tauto.
Qed.

Lemma set_categories_rank_witness :
  length (rows (set_categories ranks)) = length (rows ranks)
  ∧ (∀ i r, rows ranks !! i = Some r →
            ∃ r', rows (set_categories ranks) !! i = Some r'
                  ∧ ((∃ s, s ∈ rank_order ∧ cellof c_rank r = Str s
                           ∧ cellof c_rank r' = Str s)
                     ∨ (in_cats rank_order (cellof c_rank r) = false
                        ∧ cellof c_rank r' = Null)))
  ∧ set_categories (set_categories ranks) = set_categories ranks.
Proof. apply (set_categories_rank ranks). reflexivity. Defined.

(** ** The outcome of a run *)

Lemma same_base_refl (d : DataFrame) : same_base d d.
Proof. by intros c _. Qed.

Lemma same_base_trans (d1 d2 d3 : DataFrame) :
  same_base d1 d2 → same_base d2 d3 → same_base d1 d3.
Proof. intros H1 H2 c Hc. by rewrite H2, H1. Qed.

Lemma same_base_assign (c : string) (f : row → cell) (d : DataFrame) :
  c ∈ derived_cols → same_base d (assign c f d).
Proof.
  intros Hc c' Hc'. apply has_col_assign_ne. by intros ->.
Qed.

Lemma base_cols_not_derived :
  Forall (λ c, c ∉ derived_cols) (c_prev :: read_order).
Proof. compute_done. Qed.

Lemma base_col (c : string) :
  c ∈ c_prev :: read_order → c ∉ derived_cols.
Proof.
  intros Hc. pose proof base_cols_not_derived as H.
  rewrite Forall_forall in H. by apply H.
Qed.

Lemma require_two (a b : string) (df : DataFrame) :
  has_col a df = true → has_col b df = true → require [a; b] df = Ok tt.
Proof. intros Ha Hb. simpl. by rewrite Ha, Hb. Qed.

Lemma require_one (a : string) (df : DataFrame) :
  has_col a df = true → require [a] df = Ok tt.
Proof. intros Ha. simpl. by rewrite Ha. Qed.

Lemma require_first_missing (a : string) (cs : list string) (df : DataFrame) :
  has_col a df = false → require (a :: cs) df = KeyError a.
Proof. intros Ha. simpl. by rewrite Ha. Qed.

Lemma dashboard_no_total (df : DataFrame) :
  has_col c_total df = false → dashboard df = KeyError c_total.
Proof. intros H. unfold dashboard. by rewrite (getnum_err c_total). Qed.

Lemma tab2_outcome (df : DataFrame) :
  match has_col c_comp df, has_col c_perf df with
  | false, _ => tab2 df = KeyError c_comp
  | true, false => tab2 df = KeyError c_perf
  | true, true => ∃ rl, tab2 df = Ok rl
  end.
Proof.
  unfold tab2, getnum.
  destruct (has_col c_comp df); [|done].
  destruct (has_col c_perf df); [|done]. by eexists.
Qed.

Lemma tab3_outcome (df : DataFrame) :
  has_col c_total df = true →
  ∃ df' cm, tab3 df = Ok (df', cm) ∧ same_base df df'.
Proof.
  intros Ht. unfold tab3. destruct (has_col c_prev df) eqn:Ep.
  - rewrite require_two, bind_ok by done.
    rewrite !getnum_ok, !bind_ok by by apply has_col_assign_keep.
    eexists _, _. split; [reflexivity|].
    apply same_base_assign. unfold derived_cols. set_unfold; tauto.
  - eexists _, _. split; [reflexivity|apply same_base_refl].
Qed.

Lemma tab5_ok (df : DataFrame) :
  has_col c_total df = true → ∃ thr st, tab5 df = Ok (thr, st).
Proof.
  intros Ht. unfold tab5. rewrite getnum_ok, bind_ok by done. by eexists _, _.
Qed.

Lemma tab6_outcome (df : DataFrame) :
  has_col c_total df = true →
  if has_col c_prev df && negb (has_col c_dept df)
  then tab6 df = KeyError c_dept
  else ∃ df' g, tab6 df = Ok (df', g) ∧ same_base df df'.
Proof.
  intros Ht. unfold tab6. destruct (has_col c_prev df) eqn:Ep; cbn [andb].
  - rewrite (require_two c_total c_prev df), bind_ok by done.
    set (df3 := assign c_growth _ _).
    assert (same_base df df3) as Hb.
    { unfold df3.
      eapply same_base_trans; [|apply same_base_assign].
      eapply same_base_trans; [|apply same_base_assign].
      - apply same_base_assign. unfold derived_cols. set_unfold; tauto.
      - unfold derived_cols. set_unfold; tauto.
      - unfold derived_cols. set_unfold; tauto. }
    assert (has_col c_delta df3 = true) as Hd.
    { unfold df3. do 2 apply has_col_assign_keep. apply has_col_assign_self. }
    destruct (has_col c_dept df) eqn:Ed; cbn [negb].
    + rewrite (require_two c_dept c_delta df3), bind_ok;
        [|rewrite Hb; [done|apply base_col; unfold read_order; set_unfold; tauto]
         |done].
      rewrite !getnum_ok, !bind_ok
        by (rewrite Hb; [done|apply base_col; unfold read_order;
                              set_unfold; tauto]).
      eexists _, _. split; [reflexivity|done].
    + rewrite (require_first_missing c_dept); [done|].
      rewrite Hb; [done|apply base_col; unfold read_order; set_unfold; tauto].
  - eexists _, _. split; [reflexivity|apply same_base_refl].
Qed.

Section Outcome.

Context (parse : string → option float) (sqrt_q : Qc → Qc).

Lemma tab7_outcome (df : DataFrame) :
  has_col c_comp df = true → has_col c_perf df = true →
  has_col c_total df = true →
  if has_col c_dept df
  then ∃ df' rk, tab7 sqrt_q df = Ok (df', rk) ∧ same_base df df'
  else tab7 sqrt_q df = KeyError c_dept.
Proof.
  intros Hc Hp Ht. unfold tab7.
  rewrite (getnum_ok c_comp), bind_ok, (getnum_ok c_perf), bind_ok by done.
  destruct (has_col c_prev df) eqn:Ep.
  - rewrite (require_two c_total c_prev df), !bind_ok by done.
    cbn [mbind result_bind]. set (df1 := assign c_diff _ _).
    assert (same_base df df1) as Hb
      by (apply same_base_assign; unfold derived_cols; set_unfold; tauto).
    destruct (has_col c_dept df) eqn:Ed.
    + rewrite (require_two c_dept c_total df1), bind_ok
        by (rewrite Hb; [done|apply base_col; unfold read_order;
                              set_unfold; tauto]).
      eexists _, _. split; [reflexivity|done].
    + rewrite (require_first_missing c_dept); [done|].
      rewrite Hb; [done|apply base_col; unfold read_order; set_unfold; tauto].
  - cbn [mbind result_bind]. destruct (has_col c_dept df) eqn:Ed.
    + rewrite require_two, bind_ok by done.
      eexists _, _. split; [reflexivity|apply same_base_refl].
    + by rewrite (require_first_missing c_dept).
Qed.

Lemma tab8_outcome (df : DataFrame) :
  has_col c_dept df = true → has_col c_tenure df = true →
  has_col c_total df = true → has_col c_comp df = true →
  has_col c_perf df = true →
  match has_col c_grade df, has_col c_rank df with
  | false, _ => tab8 df = KeyError c_grade
  | true, false => tab8 df = KeyError c_rank
  | true, true => ∃ df' en, tab8 df = Ok (df', en)
  end.
Proof.
  intros Hd Hn Ht Hc Hp.
  destruct (has_col c_grade df) eqn:Eg.
  - destruct (has_col c_rank df) eqn:Er.
    + rewrite tab8_ok; [by eexists _, _|].
      unfold tab8_cols. intros c. rewrite !elem_of_cons, elem_of_nil.
      intros [->|[->|[->|[->|[->|[->|[->|[]]]]]]]]; done.
    + unfold tab8.
      rewrite (require_one c_dept df), bind_ok by done.
      rewrite (require_two c_grade c_dept df), bind_ok by done.
      rewrite (require_one c_tenure df), bind_ok by done.
      rewrite (require_two c_bucket c_total), bind_ok;
        [|apply has_col_assign_self|by apply has_col_assign_keep].
      rewrite (require_first_missing c_rank); [done|].
      by rewrite has_col_assign_ne.
  - unfold tab8.
    rewrite (require_one c_dept df), bind_ok by done.
    by rewrite (require_first_missing c_grade [c_dept] df).
Qed.

(** X4.  A run returns its results exactly when the header holds the
    total, tenure, competency, performance, department, grade and rank
    columns (the prior-year column is free to be absent); otherwise it
    stops with a [KeyError] on the first of these, in this order, that is
    missing. *)
Theorem run_outcome (df0 : DataFrame) :
  match first_missing df0 with
  | None => ∃ o, pipeline parse sqrt_q df0 = Ok o
  | Some c => pipeline parse sqrt_q df0 = KeyError c
  end.
Proof.
  unfold first_missing, read_order. cbn [List.find].
  unfold pipeline. cbv zeta.
  set (df := normalize parse df0). set (d := set_categories df).
  assert (∀ c, has_col c df = has_col c df0) as Hdf
    by (intros c; apply has_col_normalize).
  assert (∀ c, has_col c d = has_col c df0) as Hd
    by (intros c; apply has_col_run).
  destruct (has_col c_total df0) eqn:Ht; cbn [negb];
    [|by rewrite dashboard_no_total by by rewrite Hdf].
  destruct (has_col c_tenure df0) eqn:Hn; cbn [negb];
    [|by rewrite dashboard_no_tenure by by rewrite Hdf].
  destruct (dashboard_ok df) as (s & -> & _); [by rewrite Hdf..|].
  rewrite bind_ok.
  destruct (tab1_ok d) as (ra & ->); [by rewrite Hd|]. rewrite bind_ok.
  pose proof (tab2_outcome d) as H2. rewrite !Hd in H2.
  destruct (has_col c_comp df0) eqn:Hc; cbn [negb]; [|by rewrite H2].
  destruct (has_col c_perf df0) eqn:Hp; cbn [negb]; [|by rewrite H2].
  destruct H2 as (rl & ->). rewrite bind_ok.
  destruct (tab3_outcome d) as (d3 & cm & -> & B3); [by rewrite Hd|].
  rewrite bind_ok. cbv beta iota.
  assert (∀ c, c ∈ c_prev :: read_order → has_col c d3 = has_col c df0) as H3.
  { intros c Hin. rewrite B3 by by apply base_col. apply Hd. }
  unfold read_order in H3.
  destruct (tab4_ok d3) as (gc & ->). rewrite bind_ok.
  destruct (tab5_ok d3) as (thr & st & ->);
    [rewrite H3; [done|set_unfold; tauto]|].
  rewrite bind_ok. cbv beta iota.
  pose proof (tab6_outcome d3) as H6.
  rewrite !H3 in H6 by (set_unfold; tauto).
  specialize (H6 Ht).
  pose proof (tab7_outcome d3) as H7.
  rewrite !H3 in H7 by (set_unfold; tauto).
  specialize (H7 Hc Hp Ht).
  destruct (has_col c_dept df0) eqn:Hde; cbn [negb].
  - rewrite andb_false_r in H6. destruct H6 as (d6 & g & -> & B6).
    rewrite bind_ok. cbv beta iota.
    assert (∀ c, c ∈ c_prev :: read_order → has_col c d6 = has_col c df0)
      as H6'.
    { intros c Hin. rewrite B6 by by apply base_col. by apply H3. }
    unfold read_order in H6'.
    pose proof (tab7_outcome d6) as H7'.
    rewrite !H6' in H7' by (set_unfold; tauto).
    specialize (H7' Hc Hp Ht). rewrite Hde in H7'.
    destruct H7' as (d7 & rk & -> & B7). rewrite bind_ok. cbv beta iota.
    assert (∀ c, c ∈ c_prev :: read_order → has_col c d7 = has_col c df0)
      as H7''.
    { intros c Hin. rewrite B7 by by apply base_col. by apply H6'. }
    unfold read_order in H7''.
    pose proof (tab8_outcome d7) as H8.
    rewrite !H7'' in H8 by (set_unfold; tauto).
    specialize (H8 Hde Hn Ht Hc Hp).
    destruct (has_col c_grade df0) eqn:Hg; cbn [negb]; [|by rewrite H8].
    destruct (has_col c_rank df0) eqn:Hr; cbn [negb]; [|by rewrite H8].
    destruct H8 as (d8 & en & ->). rewrite bind_ok. cbv beta iota.
    by eexists.
  - rewrite andb_true_r in H6. destruct (has_col c_prev df0) eqn:Hpv.
    + by rewrite H6.
    + destruct H6 as (d6 & g & -> & B6). rewrite bind_ok. cbv beta iota.
      assert (∀ c, c ∈ c_prev :: read_order → has_col c d6 = has_col c df0)
        as H6'.
      { intros c Hin. rewrite B6 by by apply base_col. by apply H3. }
      unfold read_order in H6'.
      pose proof (tab7_outcome d6) as H7'.
      rewrite !H6' in H7' by (set_unfold; tauto).
      specialize (H7' Hc Hp Ht). rewrite Hde in H7'. by rewrite H7'.
Qed.

End Outcome.

(** The sample upload runs; without its department column the run stops
    there, with or without the prior-year column. *)
Example run_outcome_sample :
  is_ok (pipeline parse_decimal sqrt_12 upload) = true
  ∧ pipeline parse_decimal sqrt_12 (drop_col c_dept upload) = KeyError c_dept
  ∧ pipeline parse_decimal sqrt_12 (drop_col c_prev (drop_col c_dept upload))
    = KeyError c_dept.
Proof. repeat split; vm_compute; reflexivity. Qed.

(** ** The table a run leaves behind *)

Lemma bind_inv {A B} (m : result A) (f : A → result B) (b : B) :
  m ≫= f = Ok b → ∃ a, m = Ok a ∧ f a = Ok b.
Proof. destruct m as [a|c]; [|done]. intros H. by exists a. Qed.

Lemma tab3_rows (df df' : DataFrame) (cm : option float) :
  tab3 df = Ok (df', cm) →
  rows df' = (if has_col c_prev df then with_change <$> rows df else rows df)
  ∧ same_base df df'.
Proof.
  unfold tab3. destruct (has_col c_prev df) eqn:Ep.
  - intros (_ & _ & (t & _ & (p & _ & [= <- _])%bind_inv)%bind_inv)%bind_inv.
    split; [done|]. apply same_base_assign. unfold derived_cols.
    set_unfold; tauto.
  - intros [= <- _]. split; [done|apply same_base_refl].
Qed.

Lemma tab6_rows (df df' : DataFrame) (g : option Growth) :
  tab6 df = Ok (df', g) →
  rows df' = (if has_col c_prev df then with_growth <$> rows df else rows df)
  ∧ same_base df df'.
Proof.
  unfold tab6. destruct (has_col c_prev df) eqn:Ep.
  - intros (_ & _ & (_ & _ & (t & _ & (p & _ & [= <- _])%bind_inv)%bind_inv)
                       %bind_inv)%bind_inv.
    split.
    + cbn [rows assign]. rewrite <- !list_fmap_compose.
      by apply list_fmap_ext.
    + eapply same_base_trans; [|apply same_base_assign].
      eapply same_base_trans; [|apply same_base_assign].
      * apply same_base_assign. unfold derived_cols. set_unfold; tauto.
      * unfold derived_cols. set_unfold; tauto.
      * unfold derived_cols. set_unfold; tauto.
  - intros [= <- _]. split; [done|apply same_base_refl].
Qed.

Lemma tab7_rows (sqrt_q : Qc → Qc) (df df' : DataFrame) (rk : Risk) :
  tab7 sqrt_q df = Ok (df', rk) →
  rows df' = (if has_col c_prev df then with_diff <$> rows df else rows df)
  ∧ same_base df df'.
Proof.
  unfold tab7.
  intros (c & _ & (p & _ & H)%bind_inv)%bind_inv.
  apply bind_inv in H as ([d1 wd] & H1 & H).
  apply bind_inv in H as (_ & _ & [= <- _]).
  destruct (has_col c_prev df) eqn:Ep.
  - apply bind_inv in H1 as (_ & _ & [= <- _]).
    split; [done|]. apply same_base_assign. unfold derived_cols.
    set_unfold; tauto.
  - injection H1 as <- _. split; [done|apply same_base_refl].
Qed.

Lemma tab8_rows (df df' : DataFrame) (en : Engine) :
  tab8 df = Ok (df', en) →
  rows df' = with_bucket <$> rows df ∧ same_base df df'.
Proof.
  unfold tab8.
  intros (_ & _ & (_ & _ & (_ & _ & (_ & _ & (_ & _ & [= <- _])%bind_inv)
                                     %bind_inv)%bind_inv)%bind_inv)%bind_inv.
  split; [done|]. apply same_base_assign. unfold derived_cols.
  set_unfold; tauto.
Qed.

Section Inversion.

Context (parse : string → option float) (sqrt_q : Qc → Qc).

(** The steps of a run that returns. *)
Lemma pipeline_inv (df0 : DataFrame) (o : Output) :
  pipeline parse sqrt_q df0 = Ok o →
  ∃ d3 d6 d7,
    dashboard (normalize parse df0) = Ok (summary o)
    ∧ tab1 (set_categories (normalize parse df0)) = Ok (rank_avg o)
    ∧ tab2 (set_categories (normalize parse df0)) = Ok (ref_lines o)
    ∧ tab3 (set_categories (normalize parse df0)) = Ok (d3, change_max o)
    ∧ tab4 d3 = Ok (grade_counts o)
    ∧ tab5 d3 = Ok (star_threshold o, stars o)
    ∧ tab6 d3 = Ok (d6, growth o)
    ∧ tab7 sqrt_q d6 = Ok (d7, risk o)
    ∧ tab8 d7 = Ok (out_df o, engine o).
Proof.
  unfold pipeline. cbv zeta.
  intros (s & Hs & H)%bind_inv.
  apply bind_inv in H as (ra & H1 & H).
  apply bind_inv in H as (rl & H2 & H).
  apply bind_inv in H as ([d3 cm] & H3 & H).
  apply bind_inv in H as (gc & H4 & H).
  apply bind_inv in H as ([thr st] & H5 & H).
  apply bind_inv in H as ([d6 g] & H6 & H).
  apply bind_inv in H as ([d7 rk] & H7 & H).
  apply bind_inv in H as ([d8 en] & H8 & H).
  injection H as <-. by exists d3, d6, d7.
Qed.

(** Every row of the final table is the row of the normalised, converted
    upload with its derived columns. *)
Lemma pipeline_rows (df0 : DataFrame) (o : Output) :
  pipeline parse sqrt_q df0 = Ok o →
  rows (out_df o)
  = derive (has_col c_prev df0)
      <$> rows (set_categories (normalize parse df0)).
Proof.
  intros (d3 & d6 & d7 & _ & _ & _ & H3 & _ & _ & H6 & H7 & H8)%pipeline_inv.
  apply tab3_rows in H3 as [R3 B3]. apply tab6_rows in H6 as [R6 B6].
  apply tab7_rows in H7 as [R7 B7]. apply tab8_rows in H8 as [R8 _].
  assert (c_prev ∉ derived_cols) as Hp
    by (apply base_col, list_elem_of_here).
  rewrite (B6 _ Hp), (B3 _ Hp) in R7. rewrite (B3 _ Hp) in R6.
  rewrite has_col_run in R3, R6, R7.
  rewrite R8, R7, R6, R3. unfold derive.
  destruct (has_col c_prev df0); [|done].
  rewrite <- !list_fmap_compose. by apply list_fmap_ext.
Qed.

End Inversion.

Lemma not_derived (c : string) :
  c ∉ derived_cols →
  c_change ≠ c ∧ c_delta ≠ c ∧ c_absdelta ≠ c ∧ c_growth ≠ c ∧ c_diff ≠ c
  ∧ c_bucket ≠ c.
Proof.
  intros H.
  repeat split; intros <-; apply H; unfold derived_cols; set_unfold; tauto.
Qed.

Lemma lookup_derive (b : bool) (c : string) (r : row) :
  c ∉ derived_cols → derive b r !! c = r !! c.
Proof.
  intros (H1 & H2 & H3 & H4 & H5 & H6)%not_derived.
  unfold derive, with_bucket, with_diff, with_growth, with_change.
  destruct b; by rewrite !lookup_insert_ne by done.
Qed.

Lemma cellof_derive (b : bool) (c : string) (r : row) :
  c ∉ derived_cols → cellof c (derive b r) = cellof c r.
Proof. intros H. unfold cellof. by rewrite lookup_derive. Qed.

Lemma growth_pct_not_inf (d p : float) : is_inf (growth_pct d p) = false.
Proof.
  unfold growth_pct, replace_inf.
  by destruct (is_inf (d / p * of_Z 100)%F) eqn:E.
Qed.

(** The derived columns of one row, read back. *)
Lemma derive_columns (r : row) :
  numof c_change (derive true r) = (numof c_total r - numof c_prev r)%F
  ∧ numof c_delta (derive true r) = (numof c_total r - numof c_prev r)%F
  ∧ numof c_diff (derive true r) = (numof c_total r - numof c_prev r)%F
  ∧ numof c_absdelta (derive true r)
    = abs (numof c_total r - numof c_prev r)%F
  ∧ numof c_growth (derive true r)
    = growth_pct (numof c_total r - numof c_prev r)%F (numof c_prev r).
Proof.
  unfold derive, with_bucket, with_diff, with_growth, with_change, numof.
  cbv zeta.
  repeat split;
    repeat (rewrite cellof_insert; case_decide; try done); cbn [as_float];
    repeat (rewrite cellof_insert; case_decide; try done); cbn [as_float];
    repeat (rewrite cellof_insert; case_decide; try done).
Qed.

Lemma derive_bucket (b : bool) (r : row) :
  cellof c_bucket (derive b r) = cut bins labels (numof c_tenure r).
Proof.
  unfold derive, with_bucket. rewrite cellof_insert, decide_True by done.
  f_equal. destruct b; [|done].
  unfold with_diff, with_growth, with_change, numof. cbv zeta.
  by repeat (rewrite cellof_insert; case_decide; try done).
Qed.

Lemma not_derived_base (c : string) :
  c ∈ c_prev :: read_order → c ∉ derived_cols.
Proof. apply base_col. Qed.

Section Derived.

Context (parse : string → option float) (sqrt_q : Qc → Qc).


(** X6.  In the table a run leaves behind, the tenure bucket of every row
    is the bucket of its tenure; with the prior-year column present, the
    three change columns of every row all hold its total minus its
    prior-year total, the size column holds the absolute value of that,
    and the growth percent is the ratio computed from the same two cells
    and is never an infinity. *)
Theorem derived_columns (df0 : DataFrame) (o : Output) (r : row) :
  pipeline parse sqrt_q df0 = Ok o →
  r ∈ rows (out_df o) →
  cellof c_bucket r = cut bins labels (numof c_tenure r)
  ∧ (has_col c_prev df0 = true →
     numof c_change r = (numof c_total r - numof c_prev r)%F
     ∧ numof c_delta r = (numof c_total r - numof c_prev r)%F
     ∧ numof c_diff r = (numof c_total r - numof c_prev r)%F
     ∧ numof c_absdelta r = abs (numof c_total r - numof c_prev r)%F
     ∧ numof c_growth r
       = growth_pct (numof c_total r - numof c_prev r)%F (numof c_prev r)
     ∧ is_inf (numof c_growth r) = false).
Proof.
  intros Hrun Hr. rewrite (pipeline_rows parse sqrt_q df0 o Hrun) in Hr.
  apply list_elem_of_fmap in Hr as (r0 & -> & _).
  assert (∀ c, c ∈ c_prev :: read_order →
               numof c (derive (has_col c_prev df0) r0) = numof c r0) as Hb.
  { intros c Hc. unfold numof. by rewrite cellof_derive by by apply base_col. }
  unfold read_order in Hb.
  rewrite (Hb c_tenure) by (set_unfold; tauto). split; [apply derive_bucket|].
  intros Hp. rewrite Hp in *.
  rewrite (Hb c_total), (Hb c_prev) by (set_unfold; tauto).
  destruct (derive_columns r0) as (H1 & H2 & H3 & H4 & H5).
  rewrite H1, H2, H3, H4, H5. repeat split. apply growth_pct_not_inf.
Qed.

End Derived.


Lemma derived_columns_witness :
  ∃ o, pipeline parse_decimal sqrt_12 upload = Ok o
       ∧ upload_out_row ∈ rows (out_df o)
       ∧ cellof c_bucket upload_out_row
         = cut bins labels (numof c_tenure upload_out_row)
       ∧ (has_col c_prev upload = true →
          numof c_change upload_out_row
          = (numof c_total upload_out_row - numof c_prev upload_out_row)%F
          ∧ numof c_delta upload_out_row
            = (numof c_total upload_out_row - numof c_prev upload_out_row)%F
          ∧ numof c_diff upload_out_row
            = (numof c_total upload_out_row - numof c_prev upload_out_row)%F
          ∧ numof c_absdelta upload_out_row
            = abs (numof c_total upload_out_row
                   - numof c_prev upload_out_row)%F
          ∧ numof c_growth upload_out_row
            = growth_pct (numof c_total upload_out_row
                          - numof c_prev upload_out_row)%F
                         (numof c_prev upload_out_row)
          ∧ is_inf (numof c_growth upload_out_row) = false).
Proof.
  destruct (run_outcome parse_decimal sqrt_12 upload
            : ∃ o, pipeline parse_decimal sqrt_12 upload = Ok o) as [o Ho].
  assert (upload_out_row ∈ rows (out_df o)) as Hr.
  { rewrite (pipeline_rows parse_decimal sqrt_12 upload o Ho).
    rewrite set_categories_rows, normalize_rows. cbn [rows].
    unfold upload_out_row.
    apply (list_elem_of_fmap_2 (derive true)).
    apply (list_elem_of_fmap_2 (with_categories _)).
    apply (list_elem_of_fmap_2 (norm_row _ _ _)).
    apply list_elem_of_here. }
  exists o. split; [exact Ho|]. split; [exact Hr|].
  exact (derived_columns parse_decimal sqrt_12 upload o upload_out_row Ho Hr).
Defined.

(** ** Grade counts (tab4) *)

Lemma sum_list_zero {A} (l : list A) : sum_list ((λ _, 0) <$> l) = 0.
Proof. induction l as [|a l IH]; csimpl; [done|]. by rewrite IH. Qed.

Lemma sum_list_plus {A} (f g : A → nat) (l : list A) :
  sum_list ((λ a, f a + g a) <$> l)
  = sum_list (f <$> l) + sum_list (g <$> l).
Proof. induction l as [|a l IH]; csimpl; [done|]. rewrite IH. lia. Qed.

Lemma in_cats_cons (k : string) (cats : list string) (c : cell) :
  in_cats (k :: cats) c = cell_is k c || in_cats cats c.
Proof.
  destruct c as [x|s|]; simpl; try done.
  apply eq_true_iff_eq.
  rewrite orb_true_iff, !bool_decide_eq_true, elem_of_cons. done.
Qed.

(** A cell matches at most one of the categories. *)
Lemma indicator_sum (cats : list string) (c : cell) :
  NoDup cats →
  sum_list ((λ k, if cell_is k c then 1 else 0) <$> cats)
  = if in_cats cats c then 1 else 0.
Proof.
  induction cats as [|k cats IH]; intros Hnd; csimpl.
  - by destruct c.
  - apply NoDup_cons in Hnd as [Hk Hnd]. rewrite IH, in_cats_cons by done.
    destruct (cell_is k c) eqn:E; simpl; [|done].
    destruct c as [x|s|]; simpl in E; try done.
    apply bool_decide_eq_true in E as ->. simpl.
    by rewrite bool_decide_false.
Qed.

Lemma counts_snd (cats : list string) (key : string) (rs : list row) :
  (value_counts_cat cats key rs).*2
  = (λ k, length (select (λ r, cell_is k (cellof key r)) rs)) <$> cats.
Proof. unfold value_counts_cat. by rewrite <- list_fmap_compose. Qed.

Lemma count_cats_sum (cats : list string) (key : string) (rs : list row) :
  NoDup cats →
  sum_list (value_counts_cat cats key rs).*2
  = length (select (λ r, in_cats cats (cellof key r)) rs).
Proof.
  intros Hnd. rewrite counts_snd. unfold select.
  induction rs as [|r rs IH].
  - exact (sum_list_zero cats).
  - rewrite (list_fmap_ext _
              (λ k, (if cell_is k (cellof key r) then 1 else 0)
                    + length (List.filter (λ r, cell_is k (cellof key r)) rs))
              cats).
    2:{ intros i k _. simpl. by destruct (cell_is k (cellof key r)). }
    rewrite sum_list_plus, indicator_sum, IH by done. simpl.
    by destruct (in_cats cats (cellof key r)).
Qed.

Lemma filter_length_le {A} (p : A → bool) (l : list A) :
  length (List.filter p l) ≤ length l.
Proof.
  induction l as [|a l IH]; simpl; [done|]. destruct (p a); simpl; lia.
Qed.

Lemma grade_order_nodup : NoDup grade_order.
Proof. compute_done. Qed.

(** X7.  The grade counts list the five grades, and they add up to the
    number of rows whose grade is one of the five; rows with another grade
    or none are counted nowhere. *)
Theorem grade_counts_total (df : DataFrame) :
  has_col c_grade df = true →
  ∃ gc,
    tab4 (set_categories df) = Ok (Some gc)
    ∧ gc.*1 = grade_order
    ∧ sum_list gc.*2
      = length (select (λ r, in_cats grade_order (cellof c_grade r)) (rows df))
    ∧ sum_list gc.*2 ≤ length (rows df).
Proof.
  intros Hg. rewrite tab4_raw by done. eexists. split; [reflexivity|].
  split.
  { unfold value_counts_cat. rewrite <- list_fmap_compose.
    apply list_fmap_id. }
  rewrite count_cats_sum by apply grade_order_nodup.
  split; [done|apply filter_length_le].
Qed.

Lemma grade_counts_total_witness :
  ∃ gc,
    tab4 (set_categories ranks) = Ok (Some gc)
    ∧ gc.*1 = grade_order
    ∧ sum_list gc.*2
      = length (select (λ r, in_cats grade_order (cellof c_grade r))
                       (rows ranks))
    ∧ sum_list gc.*2 ≤ length (rows ranks).
Proof. apply (grade_counts_total ranks). reflexivity. Defined.

(** ** The tenure bins as a whole *)

Lemma le_lt_trans (x y z : float) :
  (x <=? y)%F = true → (y <? z)%F = true → (x <? z)%F = true.
Proof.
  intros Hxy Hyz. unfold lt. pose proof (lt_le _ _ Hyz) as Hyz'.
  rewrite (le_trans _ _ _ Hxy Hyz'). simpl. apply negb_true_iff.
  destruct (z <=? x)%F eqn:E; [|done].
  pose proof (le_trans _ _ _ E Hxy) as Hc.
  by rewrite (lt_not_ge _ _ Hyz) in Hc.
Qed.

Lemma not_le_lt (x y : float) :
  is_nan x = false → is_nan y = false →
  (x <=? y)%F = false → (y <? x)%F = true.
Proof.
  intros Hx Hy H. unfold lt. rewrite H. simpl.
  destruct (le_total x y Hx Hy) as [H'|H']; [congruence|by rewrite H'].
Qed.

Lemma bins_bounds (lo : float) :
  lo ∈ bins → (zero <=? lo)%F = true ∧ (lo <=? of_Z 100)%F = true.
Proof.
  unfold bins. rewrite !fmap_cons, !elem_of_cons, fmap_nil, elem_of_nil.
  intros [->|[->|[->|[->|[->|[->|[]]]]]]]; done.
Qed.

Lemma cut_index_label (x : float) (i : nat) :
  cut_index x bins 0 = Some i → ∃ l, labels !! i = Some l.
Proof.
  intros (lo & hi & _ & Hhi & _)%(cut_index_spec x bins 0 i bins_sorted).
  apply lookup_lt_Some in Hhi. change (length bins) with 6 in Hhi.
  apply lookup_lt_is_Some_2. change (length labels) with 5. lia.
Qed.

(** X8.  A tenure gets a bucket exactly when it lies in (0, 100]: tenures
    that are not positive, above 100, or NaN get none. *)
Theorem cut_covers (x : float) :
  cut bins labels x = Null
  ↔ (zero <? x)%F && (x <=? of_Z 100)%F = false.
Proof.
  unfold cut. split.
  - destruct (cut_index x bins 0) as [i|] eqn:E.
    { destruct (cut_index_label x i E) as [l ->]. done. }
    intros _. apply not_true_iff_false. intros [H0 H100]%andb_true_iff.
    assert (is_nan x = false) as Hx by by apply le_not_nan in H100 as [? _].
    assert (∀ i lo hi, bins !! i = Some lo → bins !! S i = Some hi →
                       (lo <? x)%F && (x <=? hi)%F = false) as Hno.
    { intros i lo hi Hlo Hhi. apply not_true_iff_false. intros Hin.
      assert (cut_index x bins 0 = Some i) as Hi
        by (apply (cut_index_spec x bins 0 i bins_sorted); eauto).
      congruence. }
    pose proof (Hno 0 _ _ eq_refl eq_refl) as N0.
    pose proof (Hno 1 _ _ eq_refl eq_refl) as N1.
    pose proof (Hno 2 _ _ eq_refl eq_refl) as N2.
    pose proof (Hno 3 _ _ eq_refl eq_refl) as N3.
    pose proof (Hno 4 _ _ eq_refl eq_refl) as N4.
    change ((zero <? x)%F && (x <=? of_Z 2)%F = false) in N0.
    rewrite H0 in N0. simpl in N0.
    apply (not_le_lt x (of_Z 2) Hx eq_refl) in N0. rewrite N0 in N1. simpl in N1.
    apply (not_le_lt x (of_Z 5) Hx eq_refl) in N1. rewrite N1 in N2. simpl in N2.
    apply (not_le_lt x (of_Z 10) Hx eq_refl) in N2. rewrite N2 in N3. simpl in N3.
    apply (not_le_lt x (of_Z 20) Hx eq_refl) in N3. rewrite N3 in N4. simpl in N4.
    congruence.
  - intros Hout. destruct (cut_index x bins 0) as [i|] eqn:E; [|done].
    apply (cut_index_spec x bins 0 i bins_sorted) in E
      as (lo & hi & Hlo & Hhi & [Hlt Hle]%andb_true_iff).
    apply list_elem_of_lookup_2, bins_bounds in Hlo as [Hlo _].
    apply list_elem_of_lookup_2, bins_bounds in Hhi as [_ Hhi].
    rewrite (le_lt_trans _ _ _ Hlo Hlt), (le_trans _ _ _ Hle Hhi) in Hout.
    done.
Qed.

Lemma sorted_lookup_le (edges : list float) (i j : nat) (a b : float) :
  StronglySorted (leb_rel Float.le) edges →
  i < j → edges !! i = Some a → edges !! j = Some b → (a <=? b)%F = true.
Proof.
  intros Hs. revert i j. induction Hs as [|x l Hs IH Hall]; intros i j Hij Ha Hb.
  - done.
  - destruct j as [|j]; [lia|]. destruct i as [|i]; simpl in *.
    + simplify_eq. rewrite Forall_forall in Hall. apply Hall.
      by eapply list_elem_of_lookup_2.
    + apply (IH i j); [lia|done|done].
Qed.

(** X9.  A longer tenure never falls into an earlier bucket. *)
Theorem cut_monotone (x y : float) (i j : nat) :
  cut_index x bins 0 = Some i →
  cut_index y bins 0 = Some j →
  (x <=? y)%F = true →
  i ≤ j.
Proof.
  intros (lo & hi & Hlo & _ & [Hlt _]%andb_true_iff)
           %(cut_index_spec x bins 0 i bins_sorted).
  intros (lo' & hi' & _ & Hhi' & [_ Hle']%andb_true_iff)
           %(cut_index_spec y bins 0 j bins_sorted).
  intros Hxy. destruct (decide (i ≤ j)) as [|Hji]; [done|]. exfalso.
  assert ((hi' <=? lo)%F = true) as Hh.
  { destruct (decide (S j = i)) as [<-|Hne].
    - rewrite Hlo in Hhi'. injection Hhi' as <-.
      apply le_refl. by apply lt_le, le_not_nan in Hlt as [? _].
    - apply (sorted_lookup_le bins (S j) i); [|lia|done|done].
      apply Sorted_StronglySorted; [apply _|apply bins_sorted]. }
  pose proof (le_trans _ _ _ (le_trans _ _ _ Hxy Hle') Hh) as Hc.
  by rewrite (lt_not_ge _ _ Hlt) in Hc.
Qed.

Lemma cut_monotone_witness :
  cut_index (of_Z 2) bins 0 = Some 0
  ∧ cut_index (201 #f 100) bins 0 = Some 1
  ∧ (of_Z 2 <=? 201 #f 100)%F = true
  ∧ 0 ≤ 1.
Proof.
  split; [reflexivity|]. split; [reflexivity|]. split; [reflexivity|].
  apply (cut_monotone (of_Z 2) (201 #f 100) 0 1); reflexivity.
Defined.

(** ** Top improvers, department growth and the reference line (tab3, tab6) *)

Lemma getnum_inv (c : string) (df : DataFrame) (xs : list float) :
  getnum c df = Ok xs → xs = numof c <$> rows df.
Proof. unfold getnum. destruct (has_col c df); [|done]. by intros [= <-]. Qed.

Lemma tab6_growth (df df' : DataFrame) (g : Growth) :
  tab6 df = Ok (df', Some g) →
  rows df' = with_growth <$> rows df
  ∧ top_improvers g = take 5 (sort_values (numof c_delta) false (rows df'))
  ∧ dept_growth g
    = sort_values snd true
        (agg (λ g, mean (numof c_delta <$> g)) (groupby c_dept (rows df')))
  ∧ growth_range g
    = (py_min (series_min (numof c_total <$> rows df'))
              (series_min (numof c_prev <$> rows df')),
       py_max (series_max (numof c_total <$> rows df'))
              (series_max (numof c_prev <$> rows df'))).
Proof.
  intros H. pose proof (tab6_rows _ _ _ H) as [Hr _]. revert H Hr.
  unfold tab6. destruct (has_col c_prev df) eqn:Ep; [|done].
  intros (_ & _ & (_ & _ & (t & Ht & (p & Hp & H)%bind_inv)%bind_inv)
                     %bind_inv)%bind_inv Hr.
  apply getnum_inv in Ht as ->. apply getnum_inv in Hp as ->.
  injection H as <- <-. split; [done|].
  by cbn [top_improvers dept_growth growth_range].
Qed.

Lemma key_leb_trans {A} (key : A → float) (asc : bool) :
  Transitive (leb_rel (key_leb key asc)).
Proof.
  intros a b c. unfold leb_rel, key_leb. destruct asc.
  - apply le_trans.
  - intros H1 H2. by apply (le_trans _ _ _ H2 H1).
Qed.

(** The first k rows of a sorted table against the rest. *)
Lemma sort_values_take {A} (key : A → float) (asc : bool) (k : nat)
    (l : list A) (a b : A) :
  a ∈ take k (sort_values key asc l) →
  b ∈ drop k (sort_values key asc l) →
  is_nan (key b) = true ∨ key_leb key asc a b = true.
Proof.
  destruct (sort_values_sorted key asc l) as (s & n & -> & Hs & Hnn & Hn).
  rewrite take_app, drop_app, !elem_of_app.
  intros Ha [Hb|Hb]; [|left; apply Hn; by eapply subseteq_drop].
  right. destruct Ha as [Ha|Ha].
  - pose proof (key_leb_trans key asc) as Htr.
    apply Sorted_StronglySorted in Hs; [|done].
    rewrite <- (take_drop k s) in Hs.
    by apply (StronglySorted_app_1_elem_of _ _ _ a b) in Hs.
  - assert (length s ≤ k) as Hlen.
    { destruct (decide (length s ≤ k)) as [|Hgt]; [done|].
      replace (k - length s) with 0 in Ha by lia.
      by apply elem_of_nil in Ha. }
    rewrite drop_ge in Hb by done. by apply elem_of_nil in Hb.
Qed.

(** X10.  The top improvers are the first five rows (all rows, when there
    are fewer) of the table in descending order of the score change: no
    row left out has a larger change than a listed one. *)
Theorem top_improvers_first_five (df df' : DataFrame) (g : Growth) :
  tab6 df = Ok (df', Some g) →
  length (top_improvers g) = Nat.min 5 (length (rows df))
  ∧ ∃ rest,
      top_improvers g ++ rest ≡ₚ rows df'
      ∧ ∀ a b, a ∈ top_improvers g → b ∈ rest →
               is_nan (numof c_delta b) = true
               ∨ (numof c_delta b <=? numof c_delta a)%F = true.
Proof.
  intros (Hr & -> & _ & _)%tab6_growth. split.
  - by rewrite length_take, sort_values_perm, Hr, length_fmap.
  - exists (drop 5 (sort_values (numof c_delta) false (rows df'))). split.
    + by rewrite take_drop, sort_values_perm.
    + intros a b Ha Hb.
      apply (sort_values_take (numof c_delta) false 5 (rows df') a b Ha Hb).
Qed.

Lemma top_improvers_first_five_witness :
  ∃ df' g,
    tab6 drops = Ok (df', Some g)
    ∧ length (top_improvers g) = Nat.min 5 (length (rows drops))
    ∧ ∃ rest,
        top_improvers g ++ rest ≡ₚ rows df'
        ∧ ∀ a b, a ∈ top_improvers g → b ∈ rest →
                 is_nan (numof c_delta b) = true
                 ∨ (numof c_delta b <=? numof c_delta a)%F = true.
Proof.
  eexists _, _. split; [reflexivity|].
  apply (top_improvers_first_five drops). reflexivity.
Defined.

(** X11.  The growth by department has one entry per department that
    occurs, the mean score change of its rows, in ascending order with the
    NaN entries last. *)
Theorem dept_growth_entries (df df' : DataFrame) (g : Growth) :
  tab6 df = Ok (df', Some g) →
  NoDup (dept_growth g).*1
  ∧ (∀ d, d ∈ (dept_growth g).*1
          ↔ isnull d = false ∧ ∃ r, r ∈ rows df' ∧ cellof c_dept r = d)
  ∧ (∀ d, d ∈ (dept_growth g).*1 →
          (d, mean (numof c_delta <$> dept_rows d (rows df')))
          ∈ dept_growth g)
  ∧ ∃ s n, dept_growth g = s ++ n
           ∧ Sorted (λ a b, (a.2 <=? b.2)%F = true) s
           ∧ (∀ kv, kv ∈ s → is_nan kv.2 = false)
           ∧ (∀ kv, kv ∈ n → is_nan kv.2 = true).
Proof.
  intros (_ & _ & -> & _)%tab6_growth.
  assert ((sort_values snd true
             (agg (λ g, mean (numof c_delta <$> g))
                  (groupby c_dept (rows df')))).*1
          ≡ₚ group_keys c_dept (rows df')) as Hk
    by by rewrite sort_values_perm, agg_groupby_keys.
  split; [rewrite Hk; apply NoDup_group_keys|]. split.
  { intros d. rewrite Hk. apply elem_of_group_keys. }
  split.
  - intros d. rewrite Hk. intros Hd.
    rewrite sort_values_perm, agg_groupby.
    apply list_elem_of_fmap. by exists d.
  - apply (sort_values_sorted snd true).
Qed.

Lemma dept_growth_entries_witness :
  ∃ df' g,
    tab6 drops = Ok (df', Some g)
    ∧ NoDup (dept_growth g).*1
    ∧ (∀ d, d ∈ (dept_growth g).*1
            ↔ isnull d = false ∧ ∃ r, r ∈ rows df' ∧ cellof c_dept r = d)
    ∧ (∀ d, d ∈ (dept_growth g).*1 →
            (d, mean (numof c_delta <$> dept_rows d (rows df')))
            ∈ dept_growth g)
    ∧ ∃ s n, dept_growth g = s ++ n
             ∧ Sorted (λ a b, (a.2 <=? b.2)%F = true) s
             ∧ (∀ kv, kv ∈ s → is_nan kv.2 = false)
             ∧ (∀ kv, kv ∈ n → is_nan kv.2 = true).
Proof.
  eexists _, _. split; [reflexivity|].
  apply (dept_growth_entries drops). reflexivity.
Defined.

(** On the sample: the mean change is -10 in 개발 and -9.995 in 영업; the
    four rows in descending order of their change. *)
Example dept_growth_sample :
  ∃ df' g,
    tab6 drops = Ok (df', Some g)
    ∧ (dept_growth g).*1 = [Str "개발"; Str "영업"]
    ∧ (dept_growth g).*2 = [of_Z (-10); (-9995) #f 1000]
    ∧ numof c_delta <$> top_improvers g
      = [of_Z 5; (-999) #f 100; of_Z (-10); of_Z (-25)].
Proof.
  eexists _, _. split; [reflexivity|].
  split; [vm_compute; reflexivity|].
  split; apply floats_eqb_eq; vm_compute; reflexivity.
Qed.

(** ** The range of the comparison chart (lines 184-185) *)

Lemma fmax_spec (a y : float) :
  is_nan a = false → is_nan y = false →
  is_nan (fmax a y) = false
  ∧ (a <=? fmax a y)%F = true ∧ (y <=? fmax a y)%F = true.
Proof.
  intros Ha Hy. unfold fmax. destruct (a <=? y)%F eqn:E.
  - by rewrite le_refl.
  - rewrite le_refl by done.
    destruct (le_total a y Ha Hy) as [H|H]; [congruence|done].
Qed.

Lemma fmin_spec (a y : float) :
  is_nan a = false → is_nan y = false →
  is_nan (fmin a y) = false
  ∧ (fmin a y <=? a)%F = true ∧ (fmin a y <=? y)%F = true.
Proof.
  intros Ha Hy. unfold fmin. destruct (a <=? y)%F eqn:E.
  - by rewrite le_refl.
  - rewrite le_refl by done.
    destruct (le_total a y Ha Hy) as [H|H]; [congruence|done].
Qed.

Lemma foldl_fmax_ge (ys : list float) (acc : float) :
  is_nan acc = false → (∀ y, y ∈ ys → is_nan y = false) →
  is_nan (foldl fmax acc ys) = false
  ∧ (acc <=? foldl fmax acc ys)%F = true
  ∧ ∀ y, y ∈ ys → (y <=? foldl fmax acc ys)%F = true.
Proof.
  revert acc. induction ys as [|y ys IH]; intros acc Ha Hys; simpl.
  - split; [done|]. split; [by apply le_refl|].
    intros y Hy. by apply elem_of_nil in Hy.
  - destruct (fmax_spec acc y Ha) as (Hn & H1 & H2);
      [apply Hys, list_elem_of_here|].
    destruct (IH (fmax acc y) Hn) as (Hn' & H3 & H4).
    { intros z Hz. apply Hys. by apply list_elem_of_further. }
    split; [done|]. split; [by eapply le_trans|].
    intros z [->|Hz]%elem_of_cons; [by eapply le_trans|by apply H4].
Qed.

Lemma foldl_fmin_le (ys : list float) (acc : float) :
  is_nan acc = false → (∀ y, y ∈ ys → is_nan y = false) →
  is_nan (foldl fmin acc ys) = false
  ∧ (foldl fmin acc ys <=? acc)%F = true
  ∧ ∀ y, y ∈ ys → (foldl fmin acc ys <=? y)%F = true.
Proof.
  revert acc. induction ys as [|y ys IH]; intros acc Ha Hys; simpl.
  - split; [done|]. split; [by apply le_refl|].
    intros y Hy. by apply elem_of_nil in Hy.
  - destruct (fmin_spec acc y Ha) as (Hn & H1 & H2);
      [apply Hys, list_elem_of_here|].
    destruct (IH (fmin acc y) Hn) as (Hn' & H3 & H4).
    { intros z Hz. apply Hys. by apply list_elem_of_further. }
    split; [done|]. split; [by eapply le_trans|].
    intros z [->|Hz]%elem_of_cons; [by eapply le_trans|by apply H4].
Qed.

Lemma series_max_ge (xs : list float) (x : float) :
  (∀ y, y ∈ xs → is_nan y = false) → x ∈ xs →
  is_nan (series_max xs) = false ∧ (x <=? series_max xs)%F = true.
Proof.
  intros Hnn Hx. unfold series_max. rewrite dropna_no_nan by done.
  destruct xs as [|y ys]; [by apply elem_of_nil in Hx|].
  destruct (foldl_fmax_ge ys y) as (Hn & H1 & H2).
  { apply Hnn, list_elem_of_here. }
  { intros z Hz. apply Hnn. by apply list_elem_of_further. }
  split; [done|]. apply elem_of_cons in Hx as [->|Hx]; [done|by apply H2].
Qed.

Lemma series_min_le (xs : list float) (x : float) :
  (∀ y, y ∈ xs → is_nan y = false) → x ∈ xs →
  is_nan (series_min xs) = false ∧ (series_min xs <=? x)%F = true.
Proof.
  intros Hnn Hx. unfold series_min. rewrite dropna_no_nan by done.
  destruct xs as [|y ys]; [by apply elem_of_nil in Hx|].
  destruct (foldl_fmin_le ys y) as (Hn & H1 & H2).
  { apply Hnn, list_elem_of_here. }
  { intros z Hz. apply Hnn. by apply list_elem_of_further. }
  split; [done|]. apply elem_of_cons in Hx as [->|Hx]; [done|by apply H2].
Qed.

Lemma py_max_ge (a b : float) :
  is_nan a = false → is_nan b = false →
  (a <=? py_max a b)%F = true ∧ (b <=? py_max a b)%F = true.
Proof.
  intros Ha Hb. unfold py_max, gt, lt.
  destruct (a <=? b)%F eqn:E1, (b <=? a)%F eqn:E2; simpl;
    rewrite ?le_refl by done; try done.
  destruct (le_total a b Ha Hb); congruence.
Qed.

Lemma py_min_le (a b : float) :
  is_nan a = false → is_nan b = false →
  (py_min a b <=? a)%F = true ∧ (py_min a b <=? b)%F = true.
Proof.
  intros Ha Hb. unfold py_min, lt.
  destruct (a <=? b)%F eqn:E1, (b <=? a)%F eqn:E2; simpl;
    rewrite ?le_refl by done; try done.
  destruct (le_total a b Ha Hb); congruence.
Qed.

Lemma numof_with_growth (c : string) (r : row) :
  c ∉ derived_cols → numof c (with_growth r) = numof c r.
Proof.
  intros (_ & H2 & H3 & H4 & _)%not_derived.
  unfold numof, cellof, with_growth. cbv zeta.
  by rewrite !lookup_insert_ne by done.
Qed.

(** X12.  With no NaN among the totals and prior-year totals, the two ends
    of the dashed reference line enclose every point of the chart: the
    lower end is at most, and the upper end at least, every total and every
    prior-year total. *)
Theorem growth_range_encloses (df df' : DataFrame) (g : Growth) (r : row) :
  tab6 df = Ok (df', Some g) →
  (∀ r, r ∈ rows df →
        is_nan (numof c_total r) = false ∧ is_nan (numof c_prev r) = false) →
  r ∈ rows df →
  ((growth_range g).1 <=? numof c_total r)%F = true
  ∧ ((growth_range g).1 <=? numof c_prev r)%F = true
  ∧ (numof c_total r <=? (growth_range g).2)%F = true
  ∧ (numof c_prev r <=? (growth_range g).2)%F = true.
Proof.
  intros (Hr & _ & _ & ->)%tab6_growth Hnn Hin. cbn [fst snd].
  assert (∀ c, c ∈ [c_total; c_prev] →
               numof c <$> rows df' = numof c <$> rows df) as Hcol.
  { intros c Hc. rewrite Hr, <- list_fmap_compose.
    apply list_fmap_ext. intros i x _. apply numof_with_growth.
    apply base_col. revert Hc. unfold read_order. set_unfold. tauto. }
  rewrite !(Hcol c_total), !(Hcol c_prev) by (set_unfold; tauto).
  assert (∀ y, y ∈ numof c_total <$> rows df → is_nan y = false) as Ht.
  { intros y (r' & -> & Hr')%list_elem_of_fmap. by apply Hnn. }
  assert (∀ y, y ∈ numof c_prev <$> rows df → is_nan y = false) as Hp.
  { intros y (r' & -> & Hr')%list_elem_of_fmap. by apply Hnn. }
  assert (numof c_total r ∈ numof c_total <$> rows df) as Hrt
    by by apply list_elem_of_fmap_2.
  assert (numof c_prev r ∈ numof c_prev <$> rows df) as Hrp
    by by apply list_elem_of_fmap_2.
  destruct (series_max_ge _ _ Ht Hrt) as [N1 M1].
  destruct (series_max_ge _ _ Hp Hrp) as [N2 M2].
  destruct (series_min_le _ _ Ht Hrt) as [N3 M3].
  destruct (series_min_le _ _ Hp Hrp) as [N4 M4].
  destruct (py_max_ge _ _ N1 N2) as [P1 P2].
  destruct (py_min_le _ _ N3 N4) as [P3 P4].
  repeat split; eauto using le_trans.
Qed.

Lemma growth_range_encloses_witness :
  ∃ df' g r,
    tab6 drops = Ok (df', Some g)
    ∧ r ∈ rows drops
    ∧ ((growth_range g).1 <=? numof c_total r)%F = true
    ∧ ((growth_range g).1 <=? numof c_prev r)%F = true
    ∧ (numof c_total r <=? (growth_range g).2)%F = true
    ∧ (numof c_prev r <=? (growth_range g).2)%F = true.
Proof.
  eexists _, _, _. split; [reflexivity|].
  assert (∀ r, r ∈ rows drops →
               is_nan (numof c_total r) = false
               ∧ is_nan (numof c_prev r) = false) as Hnn.
  { intros r. unfold drops. cbn [rows]. rewrite !elem_of_cons, elem_of_nil.
    intros [->|[->|[->|[->|[]]]]]; split; vm_compute; reflexivity. }
  split; [apply list_elem_of_here|].
  apply (growth_range_encloses drops _ _ _ eq_refl Hnn).
  apply list_elem_of_here.
Defined.

(** ** The reshaped rank balance (lines 276-279) *)

Lemma melt_shape (rb : list (string * (float * float))) :
  (melt rb).*1.*1 = rb.*1 ++ rb.*1
  ∧ (melt rb).*1.*2
    = replicate (length rb) c_comp ++ replicate (length rb) c_perf
  ∧ (melt rb).*2 = rb.*2.*1 ++ rb.*2.*2.
Proof.
  unfold melt. rewrite !fmap_app, <- !list_fmap_compose.
  repeat split; f_equal;
    induction rb as [|kv rb IH]; csimpl; try done; by f_equal.
Qed.

(** X13.  The rank balance lists, for the ranks that occur in rank order,
    first the mean competency score of each rank and then the mean
    performance score of each rank, so it has twice as many rows as there
    are ranks that occur. *)
Theorem rank_balance_shape (df : DataFrame) :
  forallb (λ c, has_col c df) tab8_cols = true →
  ∃ df' en,
    tab8 df = Ok (df', en)
    ∧ (rank_balance en).*1.*1
      = observed rank_order c_rank (rows df')
        ++ observed rank_order c_rank (rows df')
    ∧ (rank_balance en).*1.*2
      = replicate (length (observed rank_order c_rank (rows df'))) c_comp
        ++ replicate (length (observed rank_order c_rank (rows df'))) c_perf
    ∧ length (rank_balance en)
      = 2 * length (observed rank_order c_rank (rows df'))
    ∧ ∀ k, k ∈ observed rank_order c_rank (rows df') →
           (k, c_comp,
            mean (numof c_comp
                    <$> select (λ r, cell_is k (cellof c_rank r)) (rows df')))
           ∈ rank_balance en
           ∧ (k, c_perf,
              mean (numof c_perf
                      <$> select (λ r, cell_is k (cellof c_rank r))
                                 (rows df')))
             ∈ rank_balance en.
Proof.
  intros Hcols0. pose proof (has_all_cols _ _ Hcols0) as Hcols.
  rewrite (tab8_ok df Hcols). eexists _, _. split; [reflexivity|].
  cbn [rows rank_balance]. unfold rank_balance_of.
  set (rs := with_bucket <$> rows df).
  set (rb := agg _ (groupby_cat rank_order c_rank rs)).
  assert (rb.*1 = observed rank_order c_rank rs) as Hk
    by apply agg_groupby_cat_keys.
  destruct (melt_shape rb) as (H1 & H2 & _).
  assert (length rb = length (observed rank_order c_rank rs)) as Hlen
    by by rewrite <- Hk, length_fmap.
  rewrite H1, H2, Hk, Hlen. split; [done|]. split; [done|]. split.
  - rewrite <- (length_fmap fst (melt rb)), <- (length_fmap fst (melt rb).*1).
    rewrite H1, Hk, length_app. lia.
  - intros k Hin. rewrite <- Hk in Hin.
    apply list_elem_of_fmap in Hin as ([k' v] & -> & Hin).
    pose proof Hin as Hv. apply elem_of_agg_groupby_cat in Hv as [_ ->].
    unfold melt. rewrite !elem_of_app, !list_elem_of_fmap. split.
    + left. eexists. split; [|exact Hin]. done.
    + right. eexists. split; [|exact Hin]. done.
Qed.

Lemma rank_balance_shape_witness :
  ∃ df' en,
    tab8 depts = Ok (df', en)
    ∧ (rank_balance en).*1.*1
      = observed rank_order c_rank (rows df')
        ++ observed rank_order c_rank (rows df')
    ∧ (rank_balance en).*1.*2
      = replicate (length (observed rank_order c_rank (rows df'))) c_comp
        ++ replicate (length (observed rank_order c_rank (rows df'))) c_perf
    ∧ length (rank_balance en)
      = 2 * length (observed rank_order c_rank (rows df'))
    ∧ ∀ k, k ∈ observed rank_order c_rank (rows df') →
           (k, c_comp,
            mean (numof c_comp
                    <$> select (λ r, cell_is k (cellof c_rank r)) (rows df')))
           ∈ rank_balance en
           ∧ (k, c_perf,
              mean (numof c_perf
                      <$> select (λ r, cell_is k (cellof c_rank r))
                                 (rows df')))
             ∈ rank_balance en.
Proof. apply (rank_balance_shape depts). reflexivity. Defined.

(** ** The threshold of the core talent (lines 142-145) *)

Lemma this_Q2Qc (q : Q) : (this (Q2Qc q) == q)%Q.
Proof. apply Qred_correct. Qed.

Lemma floor_nonneg (p : Qc) : (0 <= p)%Qc → (0 <= Qfloor (this p))%Z.
Proof.
  intros Hp. change 0%Z with (Qfloor (inject_Z 0)).
  apply Qfloor_resp_le. exact Hp.
Qed.

Lemma floor_nat_le (p : Qc) :
  (0 <= p)%Qc → (Q2Qc (inject_Z (Z.of_nat (floor_nat p))) <= p)%Qc.
Proof.
  intros Hp. unfold floor_nat. rewrite Z2Nat.id by by apply floor_nonneg.
  unfold Qcle. rewrite this_Q2Qc. apply Qfloor_le.
Qed.

Lemma floor_nat_lt (p : Qc) :
  (0 <= p)%Qc → (p <= Q2Qc (inject_Z (Z.of_nat (floor_nat p))) + 1)%Qc.
Proof.
  intros Hp. unfold floor_nat. rewrite Z2Nat.id by by apply floor_nonneg.
  unfold Qcle, Qcplus. rewrite !this_Q2Qc. change (this 1%Qc) with 1%Q.
  apply Qlt_le_weak. rewrite <- (inject_Z_plus _ 1). apply Qlt_floor.
Qed.

Lemma floor_nat_mono (p : Qc) (m : nat) :
  (0 <= p)%Qc → (p <= Q2Qc (inject_Z (Z.of_nat m)))%Qc →
  (floor_nat p ≤ m)%nat.
Proof.
  intros Hp Hm. unfold floor_nat. apply Nat2Z.inj_le.
  rewrite Z2Nat.id by by apply floor_nonneg.
  rewrite <- (Qfloor_Z (Z.of_nat m)). apply Qfloor_resp_le.
  unfold Qcle in Hm. by rewrite this_Q2Qc in Hm.
Qed.

Lemma Qc_prod_nonneg (a b : Qc) : (0 <= a)%Qc → (0 <= b)%Qc → (0 <= a * b)%Qc.
Proof.
  intros Ha Hb. rewrite <- (Qcmult_0_l b). by apply Qcmult_le_compat_r.
Qed.

Lemma of_nat_nonneg (m : nat) : (0 <= Q2Qc (inject_Z (Z.of_nat m)))%Qc.
Proof.
  unfold Qcle. rewrite !this_Q2Qc. change 0%Q with (inject_Z 0).
  rewrite <- Zle_Qle. lia.
Qed.

(** A linear interpolation between two finite values lies between them. *)
Lemma lerp_between (a b g : Qc) :
  (a <= b)%Qc → (0 <= g)%Qc → (g <= 1)%Qc →
  ∃ t, lerp (Fin a) (Fin b) (Fin g) = Fin t ∧ (a <= t)%Qc ∧ (t <= b)%Qc.
Proof.
  intros Hab Hg0 Hg1. eexists. split; [reflexivity|].
  apply Qcle_minus_iff in Hab. apply Qcle_minus_iff in Hg1. split.
  - apply Qcle_minus_iff.
    replace (a + (b + - a) * g + - a)%Qc with ((b + - a) * g)%Qc by ring.
    by apply Qc_prod_nonneg.
  - apply Qcle_minus_iff.
    replace (b + - (a + (b + - a) * g))%Qc
      with ((b + - a) * (1 + - g))%Qc by ring.
    by apply Qc_prod_nonneg.
Qed.

Lemma finite_not_nan (x : float) : is_finite x = true → is_nan x = false.
Proof. by destruct x. Qed.

(** The quantile of finite values lies between two of them. *)
Lemma quantile_between (q : Qc) (xs : list float) :
  (0 <= q)%Qc → (q <= 1)%Qc → xs ≠ [] →
  (∀ x, x ∈ xs → is_finite x = true) →
  ∃ a b, a ∈ xs ∧ b ∈ xs
         ∧ is_finite (quantile q xs) = true
         ∧ (a <=? quantile q xs)%F = true
         ∧ (quantile q xs <=? b)%F = true.
Proof.
  intros Hq0 Hq1 Hne Hfin. unfold quantile.
  rewrite dropna_no_nan by (intros x Hx; by apply finite_not_nan, Hfin).
  set (v := sort_by Float.le xs).
  assert (length v = length xs) as Hlen by apply sort_by_length.
  assert (Sorted (leb_rel Float.le) v) as Hs.
  { apply sort_by_sorted. intros x y Hx Hy.
    apply le_total; by apply finite_not_nan, Hfin. }
  apply Sorted_StronglySorted in Hs; [|apply _].
  destruct (length v) as [|m] eqn:Hm.
  { destruct xs; [done|simpl in Hlen; lia]. }
  cbv zeta.
  set (pos := (Q2Qc (inject_Z (Z.of_nat m)) * q)%Qc).
  assert (0 <= pos)%Qc as Hp0
    by (apply Qc_prod_nonneg; [apply of_nat_nonneg|done]).
  assert (pos <= Q2Qc (inject_Z (Z.of_nat m)))%Qc as Hpm.
  { unfold pos. rewrite <- (Qcmult_1_r (Q2Qc (inject_Z (Z.of_nat m)))) at 2.
    rewrite !(Qcmult_comm (Q2Qc (inject_Z (Z.of_nat m)))).
    apply Qcmult_le_compat_r; [done|apply of_nat_nonneg]. }
  pose proof (floor_nat_mono pos m Hp0 Hpm) as Hlo.
  set (lo := floor_nat pos) in *.
  set (hi := Nat.min (S lo) m).
  destruct (lookup_lt_is_Some_2 v lo) as [a Ha]; [lia|].
  destruct (lookup_lt_is_Some_2 v hi) as [b Hb]; [unfold hi; lia|].
  rewrite !nth_lookup, Ha, Hb. simpl default.
  assert (a ∈ xs) as Hax
    by (eapply elem_of_sort_by, list_elem_of_lookup_2, Ha).
  assert (b ∈ xs) as Hbx
    by (eapply elem_of_sort_by, list_elem_of_lookup_2, Hb).
  assert ((a <=? b)%F = true) as Hab.
  { destruct (decide (lo = hi)) as [E|E].
    - rewrite <- E, Ha in Hb. injection Hb as <-.
      by apply le_refl, finite_not_nan, Hfin.
    - apply (sorted_lookup_le v lo hi); [done|unfold hi in *; lia|done..]. }
  pose proof (Hfin a Hax) as Fa. pose proof (Hfin b Hbx) as Fb.
  destruct a as [qa| | |]; try done. destruct b as [qb| | |]; try done.
  apply Qc_leb_le in Hab.
  destruct (lerp_between qa qb (pos - Q2Qc (inject_Z (Z.of_nat lo))))
    as (t & -> & H1 & H2).
  - done.
  - pose proof (floor_nat_le pos Hp0) as H. fold lo in H.
    apply Qcle_minus_iff in H. exact H.
  - pose proof (floor_nat_lt pos Hp0) as H. fold lo in H.
    apply Qcle_minus_iff in H. apply Qcle_minus_iff.
    by replace (1 + - (pos - Q2Qc (inject_Z (Z.of_nat lo))))%Qc
      with (Q2Qc (inject_Z (Z.of_nat lo)) + 1 + - pos)%Qc by ring.
  - exists (Fin qa), (Fin qb). repeat split; try done; by apply Qc_leb_le.
Qed.

Lemma tab5_inv (df : DataFrame) (thr : float) (st : list row) :
  tab5 df = Ok (thr, st) →
  thr = quantile (Q2Qc (9 # 10)) (numof c_total <$> rows df)
  ∧ st = sort_values (numof c_total) false
           (select (λ r, (numof c_total r >=? thr)%F) (rows df)).
Proof.
  unfold tab5. intros (xs & ->%getnum_inv & H)%bind_inv.
  by injection H as <- <-.
Qed.

(** X14.  When every total is a finite number, the threshold of the core
    talent is a finite number between two totals of the table, the core
    talent is not empty, and a row whose total is the highest of the table
    is always core talent. *)
Theorem core_talent_has_top (df : DataFrame) (thr : float) (st : list row)
    (r : row) :
  tab5 df = Ok (thr, st) →
  (∀ r', r' ∈ rows df → is_finite (numof c_total r') = true) →
  r ∈ rows df →
  (∀ r', r' ∈ rows df → (numof c_total r' <=? numof c_total r)%F = true) →
  r ∈ st
  ∧ is_finite thr = true
  ∧ ∃ r1 r2, r1 ∈ rows df ∧ r2 ∈ rows df
             ∧ (numof c_total r1 <=? thr)%F = true
             ∧ (thr <=? numof c_total r2)%F = true.
Proof.
  intros [Hthr ->]%tab5_inv Hfin Hin Htop.
  destruct (quantile_between (Q2Qc (9 # 10)) (numof c_total <$> rows df))
    as (a & b & Ha & Hb & Hf & H1 & H2).
  - done.
  - done.
  - intros E. apply fmap_nil_inv in E. rewrite E in Hin.
    by apply elem_of_nil in Hin.
  - intros x (r' & -> & Hr')%list_elem_of_fmap. by apply Hfin.
  - rewrite <- Hthr in *.
    apply list_elem_of_fmap in Ha as (r1 & -> & Hr1).
    apply list_elem_of_fmap in Hb as (r2 & -> & Hr2).
    split; [|split; [done|by exists r1, r2]].
    rewrite sort_values_perm. apply elem_of_filter_bool. split; [done|].
    unfold ge. eapply le_trans; [exact H2|]. by apply Htop.
Qed.

Lemma core_talent_has_top_witness :
  ∃ thr st r,
    tab5 drops = Ok (thr, st)
    ∧ r ∈ rows drops
    ∧ r ∈ st
    ∧ is_finite thr = true
    ∧ ∃ r1 r2, r1 ∈ rows drops ∧ r2 ∈ rows drops
               ∧ (numof c_total r1 <=? thr)%F = true
               ∧ (thr <=? numof c_total r2)%F = true.
Proof.
  eexists _, _,
    (mkrow [(c_dept, Str "개발"); (c_rank, Str "부장"); (c_total, num 90 1);
            (c_prev, num 85 1); (c_comp, num 90 1); (c_perf, num 88 1)]).
  split; [reflexivity|].
  assert (mkrow [(c_dept, Str "개발"); (c_rank, Str "부장");
                 (c_total, num 90 1); (c_prev, num 85 1);
                 (c_comp, num 90 1); (c_perf, num 88 1)] ∈ rows drops) as Hin
    by (do 3 apply list_elem_of_further; apply list_elem_of_here).
  split; [done|].
  apply (core_talent_has_top drops _ _ _ eq_refl); [| done |];
    intros r'; unfold drops; cbn [rows]; rewrite !elem_of_cons, elem_of_nil;
    intros [->|[->|[->|[->|[]]]]]; vm_compute; reflexivity.
Defined.

(** ** The potential-risk group (line 207) *)


Lemma of_nat_pos (n : nat) :
  (0 < n)%nat → (0 < Q2Qc (inject_Z (Z.of_nat n)))%Qc.
Proof.
  intros Hn. unfold Qclt. rewrite !this_Q2Qc. change 0%Q with (inject_Z 0).
  rewrite <- Zlt_Qlt. lia.
Qed.






(** On the sample the mean competency score is 80 and the mean performance
    score 75.75: the second row (85, 60) is the only one above the first
    and below the second. *)
Example potential_risk_sample :
  ∃ df' rk,
    tab7 sqrt_12 drops = Ok (df', rk)
    ∧ numof c_total <$> potential_risk rk = [7001 #f 100].
Proof.
  eexists _, _. split; [reflexivity|].
  apply floats_eqb_eq. vm_compute. reflexivity.
Qed.

(** ** The range of the talent density (lines 245-249) *)

Lemma NoDup_fst_eq {A B} (l : list (A * B)) (x : A) (y1 y2 : B) :
  NoDup l.*1 → (x, y1) ∈ l → (x, y2) ∈ l → y1 = y2.
Proof.
  intros Hnd [i Hi]%list_elem_of_lookup_1 [j Hj]%list_elem_of_lookup_1.
  assert (i = j) as ->.
  { apply (NoDup_lookup _ _ _ x Hnd); rewrite list_lookup_fmap.
    - by rewrite Hi.
    - by rewrite Hj. }
  congruence.
Qed.

Lemma of_nat_le (a b : nat) :
  (a ≤ b)%nat →
  (Q2Qc (inject_Z (Z.of_nat a)) <= Q2Qc (inject_Z (Z.of_nat b)))%Qc.
Proof.
  intros H. unfold Qcle. rewrite !this_Q2Qc. rewrite <- Zle_Qle. lia.
Qed.

(** A share of [a] out of [b], in percent. *)
Lemma pct_bounds (a b : nat) :
  (a ≤ b)%nat → (0 < b)%nat →
  (zero <=? of_nat a / of_nat b * of_Z 100)%F = true
  ∧ (of_nat a / of_nat b * of_Z 100 <=? of_Z 100)%F = true.
Proof.
  intros Hab Hb. unfold of_nat, zero, of_Z, of_Q. simpl div.
  rewrite (sgn_of_nat_pos b Hb). simpl.
  set (qa := Q2Qc (inject_Z (Z.of_nat a))).
  set (qb := Q2Qc (inject_Z (Z.of_nat b))).
  assert (0 < qb)%Qc as Hqb by by apply of_nat_pos.
  assert (qb ≠ 0%Qc) as Hqb0.
  { intros E. rewrite E in Hqb. by apply Qclt_not_eq in Hqb. }
  assert (0 <= qa / qb)%Qc as H0.
  { apply (Qcmult_lt_0_le_reg_r _ _ qb Hqb).
    rewrite test_field, Qcmult_0_l by done. apply of_nat_nonneg. }
  assert (qa / qb <= 1)%Qc as H1.
  { apply (Qcmult_lt_0_le_reg_r _ _ qb Hqb).
    rewrite test_field, Qcmult_1_l by done. by apply of_nat_le. }
  assert (0 <= Q2Qc (inject_Z 100))%Qc as H100 by done.
  rewrite !Qc_leb_le. split.
  - change (Q2Qc (inject_Z 0)) with 0%Qc. by apply Qc_prod_nonneg.
  - rewrite <- (Qcmult_1_l (Q2Qc (inject_Z 100))) at 2.
    by apply Qcmult_le_compat_r.
Qed.

Lemma filter_filter_length {A} (p q : A → bool) (l : list A) :
  (length (List.filter p (List.filter q l)) ≤ length (List.filter p l))%nat.
Proof.
  induction l as [|x l IH]; simpl; [done|].
  destruct (q x), (p x) eqn:E; simpl; rewrite ?E; simpl; lia.
Qed.

Lemma dept_star_rows_le (d : cell) (rs : list row) :
  (length (dept_star_rows d rs) ≤ length (dept_rows d rs))%nat.
Proof. apply filter_filter_length. Qed.

(** X16.  Every entry of the talent density is a percentage between 0 and
    100. *)
Theorem talent_density_bounds (df : DataFrame) :
  forallb (λ c, has_col c df) tab8_cols = true →
  ∃ df' en,
    tab8 df = Ok (df', en)
    ∧ ∀ kv, kv ∈ talent_density en →
            (zero <=? kv.2)%F = true ∧ (kv.2 <=? of_Z 100)%F = true.
Proof.
  intros Hcols0. pose proof (has_all_cols _ _ Hcols0) as Hcols.
  rewrite (tab8_ok df Hcols). eexists _, _. split; [reflexivity|].
  cbn [talent_density]. intros [d v] Hin. cbn [snd].
  assert (d ∈ group_keys c_dept (rows df)) as Hd.
  { rewrite <- talent_density_keys. apply list_elem_of_fmap.
    by exists (d, v). }
  pose proof (talent_density_entry _ _ Hd) as He.
  assert (NoDup (talent_density_of (rows df)).*1) as Hnd
    by (rewrite talent_density_keys; apply NoDup_group_keys).
  rewrite (NoDup_fst_eq _ _ _ _ Hnd Hin He).
  apply pct_bounds; [apply dept_star_rows_le|].
  by apply select_key_nonempty.
Qed.

Lemma talent_density_bounds_witness :
  ∃ df' en,
    tab8 depts = Ok (df', en)
    ∧ ∀ kv, kv ∈ talent_density en →
            (zero <=? kv.2)%F = true ∧ (kv.2 <=? of_Z 100)%F = true.
Proof. apply (talent_density_bounds depts). reflexivity. Defined.
